(** * curator.actions: a shallow embedding of the action execution engine

    The Python module [curator/actions.py] defines one class per cluster
    mutation (Alias, Allocation, Close, DeleteIndices, ForceMerge, Open,
    Replicas, DeleteSnapshots, Snapshot).  Every method is embedded as a
    computation in a state-and-exception monad whose state holds the
    mutable object the method works on and the chronological trace of
    everything the method did to the outside world: calls on the
    Elasticsearch client, calls of helpers that take the client, filters of
    the identifier collection, log lines and sleeps.

    The cluster is an oracle: its answer to a call is a function of the
    trace so far, so any deterministic cluster (also one whose deletes take
    effect late) is an instance. *)

From Stdlib Require Import List String Ascii ZArith Bool Arith Lia.
From Stdlib Require DecimalString.
Import ListNotations.
Local Open Scope string_scope.
Local Open Scope list_scope.

(** ** Python values that reach the constructors *)

Inductive pyval : Type :=
| PNone
| PBool (b : bool)
| PInt (z : Z)
| PStr (s : string).

(** Python truthiness, as used by [if not x]. *)
Definition truthy (v : pyval) : bool :=
  match v with
  | PNone => false
  | PBool b => b
  | PInt z => negb (z =? 0)%Z
  | PStr s => negb (s =? "")
  end.

(** [str(v)], which is also what ['{0}'.format(v)] prints. *)
Definition py_str (v : pyval) : string :=
  match v with
  | PNone => "None"
  | PBool true => "True"
  | PBool false => "False"
  | PInt z => DecimalString.NilZero.string_of_int (Z.to_int z)
  | PStr s => s
  end.

(** [v == 0] *)
Definition py_eq_zero (v : pyval) : bool :=
  match v with
  | PInt z => (z =? 0)%Z
  | PBool b => negb b
  | _ => false
  end.

(** [type(v) == type(int())] *)
Definition is_exactly_int (v : pyval) : bool :=
  match v with
  | PInt _ => true
  | _ => false
  end.

(** One entry of the [actions] list of an alias update:
    [{ 'add' : { 'index' : i, 'alias' : a } }] or its ['remove'] form. *)
Inductive alias_op : Type :=
| OpAdd (index : string) (alias : pyval)
| OpRemove (index : string) (alias : pyval).

(** ** Exceptions and formatted messages *)

Inductive exn_class : Type :=
| MissingArgument
| ActionError
| ValueError
| TypeError
| NameError
| EmptyCollectionError
| SnapshotInProgress
| FailedExecution
| CuratorException
| AttributeError
| IndexError
| ClusterError (kind : string).

(** A message is kept as its template and the arguments of [.format]. *)
Inductive exn : Type :=
| Exn (cls : exn_class) (template : string) (args : list fmt_arg)
with fmt_arg : Type :=
| AStr (s : string)
| AVal (v : pyval)
| ANat (n : nat)
| AInt (z : Z)
| ANames (l : list string)
| AOps (l : list alias_op)
| ATypeOf (v : pyval)
| AExn (e : exn).

Definition exn_cls (e : exn) : exn_class :=
  match e with Exn c _ _ => c end.

Definition is_IndexError (e : exn) : bool :=
  match exn_cls e with IndexError => true | _ => false end.

(** The double quote, for the messages that quote a parameter name. *)
Definition dq : string := String "034"%char EmptyString.
Definition quoted (s : string) : string := dq ++ s ++ dq.

(** ** The outside world *)

(** A handle on an Elasticsearch client object. *)
Definition client_ref := nat.

(** Calls made directly on the client ([client.indices.*] and
    [client.snapshot.*]) whose return value the module ignores. *)
Inductive api_call : Type :=
| UpdateAliases (body : list alias_op)
| PutSettings (index : string) (body : string)
| Flush (index : string) (ignore_unavailable : bool)
| CloseIndex (index : string) (ignore_unavailable : bool)
| OpenIndex (index : string)
| DeleteIndex (index : string) (master_timeout : string)
| Forcemerge (index : string) (max_num_segments : pyval)
| SnapshotDelete (repository : string) (snapshot : string)
| SnapshotCreate (repository : pyval) (snapshot : string) (body : string)
    (wait_for_completion : bool).

(** Every call that is handed the client: the direct ones, the state query
    [client.snapshot.get], and the helpers of [curator.utils]. *)
Inductive call : Type :=
| Api (a : api_call)
| SnapshotGet (repository : pyval) (snapshot : string)
| GetIndices
| SnapshotRunning
| TestRepoFs (repository : pyval)
| RepositoryExists (repository : pyval)
| PollInProgress (repository : string).

Inductive value : Type :=
| VNone
| VBool (b : bool)
| VNames (l : list string).

Inductive filter_kind : Type :=
| FilterClosed
| FilterForceMerged (max_num_segments : pyval).

Inductive level : Type := Debug | Info | Warn | Error.

Inductive event : Type :=
| EvCall (c : client_ref) (what : call) (answer : exn + value)
| EvFilter (what : filter_kind) (before : list string)
    (answer : exn + list string)
| EvLog (logger : string) (lvl : level) (template : string)
    (args : list fmt_arg)
| EvSleep (seconds : Z).

(** What [actions.py] imports and this development does not see: the
    cluster behind the client, the filters of the identifier collection,
    and the pure helpers of [curator.utils].  Each answer of the cluster
    may depend on everything that happened before. *)
Record Env : Type := {
  es_api : list event -> client_ref -> api_call -> exn + unit;
  es_snapshot_get :
    list event -> client_ref -> pyval -> string -> exn + list string;
  es_get_indices : list event -> client_ref -> exn + list string;
  es_snapshot_running : list event -> client_ref -> exn + bool;
  es_test_repo_fs : list event -> client_ref -> pyval -> exn + unit;
  es_repository_exists : list event -> client_ref -> pyval -> exn + bool;
  es_snapshot_in_progress : list event -> client_ref -> string -> exn + bool;
  ilo_filter_closed : list event -> list string -> exn + list string;
  ilo_filter_forceMerged :
    list event -> pyval -> list string -> exn + list string;
  to_csv : list string -> string;
  chunk_index_list : list string -> list (list string);
  create_snapshot_body : list string -> bool -> bool -> bool -> string;
  parse_snapshot_name : pyval -> string
}.

(** ** Identifier collections *)

Record IndexList : Type := {
  il_client : client_ref;
  indices : list string
}.

Record SnapshotList : Type := {
  sl_client : client_ref;
  sl_repository : string;
  snapshots : list string
}.

(** What a caller may pass where a collection is expected. *)
Inductive collection : Type :=
| AnIndexList (ilo : IndexList)
| ASnapshotList (slo : SnapshotList)
| NotACollection (v : pyval).

(** ** The monad: the object [self], the trace, and exceptions *)

Record world (O : Type) : Type := World {
  self : O;
  trace : list event
}.
Arguments World {O} _ _.
Arguments self {O} _.
Arguments trace {O} _.

Definition M (O A : Type) : Type := world O -> (exn + A) * world O.

Definition ret {O A} (a : A) : M O A := fun w => (inr a, w).

Definition bind {O A B} (m : M O A) (k : A -> M O B) : M O B :=
  fun w =>
    match m w with
    | (inl e, w') => (inl e, w')
    | (inr a, w') => k a w'
    end.

Definition raise {O A} (e : exn) : M O A := fun w => (inl e, w).

(** [try: m  except Exception as e: h e] *)
Definition try_except {O A} (m : M O A) (h : exn -> M O A) : M O A :=
  fun w =>
    match m w with
    | (inl e, w') => h e w'
    | (inr a, w') => (inr a, w')
    end.

Declare Scope py_scope.
Delimit Scope py_scope with py.
Notation "x <- m ;; k" := (bind m (fun x => k))
  (at level 61, m at next level, right associativity) : py_scope.
Notation "m ;; k" := (bind m (fun _ => k))
  (at level 61, right associativity) : py_scope.
Local Open Scope py_scope.

Definition get_self {O} : M O O := fun w => (inr (self w), w).

Definition put_self {O} (o : O) : M O unit :=
  fun w => (inr tt, World o (trace w)).

Definition emit {O} (e : event) : M O unit :=
  fun w => (inr tt, World (self w) (trace w ++ [e])).

Definition log {O} (logger : string) (lvl : level) (template : string)
    (args : list fmt_arg) : M O unit :=
  emit (EvLog logger lvl template args).

(** [time.sleep(seconds)] *)
Definition sleep {O} (seconds : Z) : M O unit := emit (EvSleep seconds).

(** Ask the cluster, record the question and the answer, and raise what
    the cluster raised. *)
Definition ask {O A} (c : client_ref) (what : call) (inj : A -> value)
    (oracle : list event -> exn + A) : M O A :=
  fun w =>
    let r := oracle (trace w) in
    (r, World (self w)
          (trace w ++ [EvCall c what
                         match r with
                         | inl e => inl e
                         | inr a => inr (inj a)
                         end])).

(** [for x in l: body x] *)
Fixpoint for_each {O A} (l : list A) (body : A -> M O unit) : M O unit :=
  match l with
  | [] => ret tt
  | x :: l' => body x ;; for_each l' body
  end.

(** [range(a, b)] *)
Definition py_range (a b : nat) : list nat := seq a (b - a).

Section Model.

Variable E : Env.

Definition api {O} (c : client_ref) (a : api_call) : M O unit :=
  ask c (Api a) (fun _ => VNone) (fun t => es_api E t c a).

Definition snapshot_get {O} (c : client_ref) (repository : pyval)
    (snapshot : string) : M O (list string) :=
  ask c (SnapshotGet repository snapshot) VNames
    (fun t => es_snapshot_get E t c repository snapshot).

Definition get_indices {O} (c : client_ref) : M O (list string) :=
  ask c GetIndices VNames (fun t => es_get_indices E t c).

Definition snapshot_running {O} (c : client_ref) : M O bool :=
  ask c SnapshotRunning VBool (fun t => es_snapshot_running E t c).

Definition test_repo_fs {O} (c : client_ref) (repository : pyval)
    : M O unit :=
  ask c (TestRepoFs repository) (fun _ => VNone)
    (fun t => es_test_repo_fs E t c repository).

Definition repository_exists {O} (c : client_ref) (repository : pyval)
    : M O bool :=
  ask c (RepositoryExists repository) VBool
    (fun t => es_repository_exists E t c repository).

Definition snapshot_in_progress {O} (c : client_ref) (repository : string)
    : M O bool :=
  ask c (PollInProgress repository) VBool
    (fun t => es_snapshot_in_progress E t c repository).

(** Modelled from the spec: [verify_index_list] of [curator.utils], which
    is not part of the sources at hand.  Construction fails when the
    collection reference is not a recognized collection type. *)
Definition verify_index_list {O} (c : collection) : M O IndexList :=
  match c with
  | AnIndexList ilo => ret ilo
  | ASnapshotList _ =>
      raise (Exn TypeError "Not an IndexList object." [])
  | NotACollection v =>
      raise (Exn TypeError "Not an IndexList object." [ATypeOf v])
  end.

(** Modelled from the spec: [verify_snapshot_list] of [curator.utils],
    the same check for the snapshot collection. *)
Definition verify_snapshot_list {O} (c : collection) : M O SnapshotList :=
  match c with
  | ASnapshotList slo => ret slo
  | AnIndexList _ =>
      raise (Exn TypeError "Not a SnapshotList object." [])
  | NotACollection v =>
      raise (Exn TypeError "Not a SnapshotList object." [ATypeOf v])
  end.

(** Modelled from the spec: [empty_list_check] of the identifier
    collection (IndexList and SnapshotList are not part of the sources at
    hand): the guard raises EmptyCollectionError when the working
    identifier collection is empty. *)
Definition empty_list_check {O} (identifiers : list string) : M O unit :=
  match identifiers with
  | [] => raise (Exn EmptyCollectionError "collection is empty" [])
  | _ :: _ => ret tt
  end.

(** Modelled from the spec: [working_list] of the identifier collection,
    the working identifier set in its order. *)
Definition working_list (ilo : IndexList) : list string := indices ilo.

(** Modelled from the spec: [report_failure] of [curator.utils]: an
    exception of a cluster call is logged and raised again as the uniform
    execution failure. *)
Definition report_failure {O A} (e : exn) : M O A :=
  log "curator.utils" Error "Exception encountered: {0}" [AExn e] ;;
  raise (Exn FailedExecution "Exception encountered: {0}" [AExn e]).

(** Modelled from the spec: [safe_to_snap] of [curator.utils]: poll the
    repository for a snapshot in progress, at most [retry_count] times,
    waiting [retry_interval] seconds between two polls; [True] as soon as
    a poll finds the repository idle, [False] when it is busy at every
    poll. *)
Fixpoint safe_to_snap_polls {O} (c : client_ref) (repository : string)
    (retry_interval : Z) (polls : nat) : M O bool :=
  match polls with
  | 0 => ret false
  | S polls' =>
      busy <- snapshot_in_progress c repository ;;
      if busy then
        match polls' with
        | 0 => ret false
        | S _ =>
            sleep retry_interval ;;
            safe_to_snap_polls c repository retry_interval polls'
        end
      else ret true
  end.

Definition safe_to_snap {O} (c : client_ref) (repository : string)
    (retry_interval retry_count : Z) : M O bool :=
  safe_to_snap_polls c repository retry_interval (Z.to_nat retry_count).

End Model.

(** Modelled from the spec: the filters [filter_closed] and
    [filter_forceMerged] of the identifier collection replace the working
    identifiers in place; what they keep is the collection's business and
    is left to the environment. *)
Definition run_filter {O} (E : Env) (what : filter_kind)
    (before : list string) : M O (list string) :=
  fun w =>
    let r :=
      match what with
      | FilterClosed => ilo_filter_closed E (trace w) before
      | FilterForceMerged n => ilo_filter_forceMerged E (trace w) n before
      end in
    (r, World (self w) (trace w ++ [EvFilter what before r])).

Definition with_indices (l : list string) (ilo : IndexList) : IndexList :=
  {| il_client := il_client ilo; indices := l |}.

(** [v in l] for a list of string literals *)
Definition py_in (v : pyval) (l : list string) : bool :=
  match v with
  | PStr s => existsb (String.eqb s) l
  | _ => false
  end.

(** ** class Alias *)
Module Alias.

Record t : Type := {
  alias : pyval;
  actions : list alias_op;
  client : option client_ref
}.

Definition loggit : string := "curator.actions.alias".

Definition bind_client (c : client_ref) (s : t) : t :=
  {| alias := alias s; actions := actions s; client := Some c |}.

Definition append (op : alias_op) (s : t) : t :=
  {| alias := alias s; actions := actions s ++ [op]; client := client s |}.

Section WithEnv.
Variable E : Env.

Definition init {O} (alias : pyval) : M O t :=
  if negb (truthy alias) then
    raise (Exn MissingArgument
             ("No value for " ++ quoted "alias" ++ " provided.") [])
  else ret {| alias := alias; actions := []; client := None |}.

Definition add (ilo : collection) : M t unit :=
  ilo <- verify_index_list ilo ;;
  s <- get_self ;;
  match client s with
  | None => put_self (bind_client (il_client ilo) s)
  | Some _ => ret tt
  end ;;
  empty_list_check (indices ilo) ;;
  for_each (working_list ilo) (fun index =>
    s <- get_self ;;
    log loggit Debug "Adding index {0} to alias {1}"
      [AStr index; AVal (alias s)] ;;
    put_self (append (OpAdd index (alias s)) s)).

Definition remove (ilo : collection) : M t unit :=
  ilo <- verify_index_list ilo ;;
  s <- get_self ;;
  match client s with
  | None => put_self (bind_client (il_client ilo) s)
  | Some _ => ret tt
  end ;;
  empty_list_check (indices ilo) ;;
  for_each (working_list ilo) (fun index =>
    s <- get_self ;;
    log loggit Debug "Removing index {0} from alias {1}"
      [AStr index; AVal (alias s)] ;;
    put_self (append (OpRemove index (alias s)) s)).

Definition body : M t (list alias_op) :=
  s <- get_self ;;
  match actions s with
  | [] =>
      raise (Exn ActionError
               ("No " ++ quoted "add" ++ " or " ++ quoted "remove"
                ++ " operations") [])
  | _ :: _ =>
      log loggit Debug "Alias actions: {0}" [AOps (actions s)] ;;
      ret (actions s)
  end.

(** The callee [self.client.indices.update_aliases] is evaluated before
    its argument [self.body()]: on an unbound client the attribute lookup
    fails first.  Both failures happen inside the [try]. *)
Definition do_action : M t unit :=
  log loggit Info "Updating aliases..." [] ;;
  try_except
    (s <- get_self ;;
     match client s with
     | None =>
         raise (Exn AttributeError
                  "'NoneType' object has no attribute 'indices'" [])
     | Some c =>
         b <- body ;;
         api E c (UpdateAliases b)
     end)
    report_failure.

End WithEnv.
End Alias.

(** ** class Allocation *)
Module Allocation.

Record t : Type := {
  index_list : IndexList;
  client : client_ref;
  body : string
}.

Definition loggit : string := "curator.actions.allocation".

Definition set_indices (l : list string) (s : t) : t :=
  {| index_list := with_indices l (index_list s);
     client := client s; body := body s |}.

Section WithEnv.
Variable E : Env.

Definition init {O} (ilo : collection) (key value allocation_type : pyval)
    : M O t :=
  ilo <- verify_index_list ilo ;;
  if negb (truthy key) then
    raise (Exn MissingArgument
             ("No value for " ++ quoted "key" ++ " provided") [])
  else if negb (truthy value) then
    raise (Exn MissingArgument
             ("No value for " ++ quoted "value" ++ " provided") [])
  else if negb (py_in allocation_type ["require"; "include"; "exclude"]) then
    raise (Exn ValueError
             ("{0} is an invalid allocation_type.  Must be one of "
              ++ quoted "require" ++ ", " ++ quoted "include" ++ ", "
              ++ quoted "exclude" ++ ".") [AVal allocation_type])
  else
    ret {| index_list := ilo;
           client := il_client ilo;
           body := "index.routing.allocation."
                   ++ py_str allocation_type ++ "." ++ py_str key
                   ++ "=" ++ py_str value |}.

Definition do_action : M t unit :=
  log loggit Info
    ("Cannot get change shard routing allocation of closed indices.  "
     ++ "Omitting any closed indices.") [] ;;
  s <- get_self ;;
  kept <- run_filter E FilterClosed (indices (index_list s)) ;;
  put_self (set_indices kept s) ;;
  s <- get_self ;;
  empty_list_check (indices (index_list s)) ;;
  log loggit Info "Updating index setting {0}" [AStr (body s)] ;;
  try_except
    (s <- get_self ;;
     for_each (chunk_index_list E (indices (index_list s))) (fun l =>
       api E (client s) (PutSettings (to_csv E l) (body s))))
    report_failure.

End WithEnv.
End Allocation.

(** ** class Close *)
Module Close.

Record t : Type := {
  index_list : IndexList;
  client : client_ref
}.

Definition loggit : string := "curator.actions.close".

Definition set_indices (l : list string) (s : t) : t :=
  {| index_list := with_indices l (index_list s); client := client s |}.

Section WithEnv.
Variable E : Env.

Definition init {O} (ilo : collection) : M O t :=
  ilo <- verify_index_list ilo ;;
  ret {| index_list := ilo; client := il_client ilo |}.

Definition do_action : M t unit :=
  s <- get_self ;;
  kept <- run_filter E FilterClosed (indices (index_list s)) ;;
  put_self (set_indices kept s) ;;
  s <- get_self ;;
  empty_list_check (indices (index_list s)) ;;
  log loggit Info "Closing selected indices" [] ;;
  try_except
    (s <- get_self ;;
     for_each (chunk_index_list E (indices (index_list s))) (fun l =>
       api E (client s) (Flush (to_csv E l) true) ;;
       api E (client s) (CloseIndex (to_csv E l) true)))
    report_failure.

End WithEnv.
End Close.

(** ** class DeleteIndices *)
Module DeleteIndices.

Record t : Type := {
  index_list : IndexList;
  client : client_ref;
  master_timeout : string
}.

Definition loggit : string := "curator.actions.delete_indices".

Section WithEnv.
Variable E : Env.

Definition init {O} (ilo : collection) (master_timeout : pyval) : M O t :=
  ilo <- verify_index_list ilo ;;
  if negb (is_exactly_int master_timeout) then
    raise (Exn TypeError
             ("Incorrect type for " ++ quoted "master_timeout"
              ++ ": {0}. Should be integer value.")
             [ATypeOf master_timeout])
  else
    let mt := (py_str master_timeout ++ "s")%string in
    log loggit Debug "master_timeout value: {0}" [AStr mt] ;;
    ret {| index_list := ilo; client := il_client ilo;
           master_timeout := mt |}.

Definition verify_result (result : list string) (count : nat) : M t bool :=
  if (0 <? List.length result)%nat then
    log loggit Error
      "The following indices failed to delete on try #{0}:" [ANat count] ;;
    for_each result (fun idx => log loggit Error "---{0}" [AStr idx]) ;;
    ret false
  else
    log loggit Debug
      "Successfully deleted all indices on try #{0}" [ANat count] ;;
    ret true.

(** [[ i for i in working_list if i in get_indices(self.client) ]]: the
    condition, and with it the query, is evaluated once per element. *)
Fixpoint still_present (c : client_ref) (working_list : list string)
    : M t (list string) :=
  match working_list with
  | [] => ret []
  | i :: rest =>
      present <- get_indices E c ;;
      kept <- still_present c rest ;;
      ret (if existsb (String.eqb i) present then i :: kept else kept)
  end.

(** The [for count in range(1, 4)] loop of [__chunk_loop]; [result] is
    unbound until the first pass has assigned it. *)
Fixpoint chunk_loop_from (counts : list nat) (working_list : list string)
    (result : option (list string)) : M t unit :=
  match counts with
  | [] =>
      match result with
      | None => raise (Exn NameError "name 'result' is not defined" [])
      | Some r =>
          log loggit Error
            "Unable to delete the following indices after 3 attempts: {0}"
            [ANames r]
      end
  | count :: counts' =>
      s <- get_self ;;
      for_each working_list (fun i =>
        log loggit Info "---deleting index {0}" [AStr i]) ;;
      api E (client s)
        (DeleteIndex (to_csv E working_list) (master_timeout s)) ;;
      result <- still_present (client s) working_list ;;
      ok <- verify_result result count ;;
      if ok then ret tt
      else chunk_loop_from counts' result (Some result)
  end.

Definition chunk_loop (chunk_list : list string) : M t unit :=
  chunk_loop_from (py_range 1 4) chunk_list None.

Definition do_action : M t unit :=
  s <- get_self ;;
  empty_list_check (indices (index_list s)) ;;
  log loggit Info "Deleting selected indices" [] ;;
  try_except
    (for_each (chunk_index_list E (indices (index_list s))) chunk_loop)
    report_failure.

End WithEnv.
End DeleteIndices.

(** ** class ForceMerge *)
Module ForceMerge.

Record t : Type := {
  client : client_ref;
  index_list : IndexList;
  max_num_segments : pyval;
  delay : Z
}.

Definition loggit : string := "curator.actions.forcemerge".

Definition set_indices (l : list string) (s : t) : t :=
  {| client := client s; index_list := with_indices l (index_list s);
     max_num_segments := max_num_segments s; delay := delay s |}.

Section WithEnv.
Variable E : Env.

Definition init {O} (ilo : collection) (max_num_segments : pyval)
    (delay : Z) : M O t :=
  ilo <- verify_index_list ilo ;;
  if negb (truthy max_num_segments) then
    raise (Exn MissingArgument
             ("Missing value for " ++ quoted "max_num_segments") [])
  else
    ret {| client := il_client ilo; index_list := ilo;
           max_num_segments := max_num_segments; delay := delay |}.

Definition do_action : M t unit :=
  s <- get_self ;;
  empty_list_check (indices (index_list s)) ;;
  kept <- run_filter E (FilterForceMerged (max_num_segments s))
            (indices (index_list s)) ;;
  put_self (set_indices kept s) ;;
  log loggit Info "forceMerging selected indices" [] ;;
  try_except
    (s <- get_self ;;
     for_each (indices (index_list s)) (fun index_name =>
       log loggit Info
         ("forceMerging index {0} to {1} segments per shard.  "
          ++ "Please wait...")
         [AStr index_name; AVal (max_num_segments s)] ;;
       api E (client s) (Forcemerge index_name (max_num_segments s)) ;;
       if (0 <? delay s)%Z then
         log loggit Info "Pausing for {0} seconds before continuing..."
           [AInt (delay s)] ;;
         sleep (delay s)
       else ret tt))
    report_failure.

End WithEnv.
End ForceMerge.

(** ** class Open *)
Module Open.

Record t : Type := {
  client : client_ref;
  index_list : IndexList
}.

Definition loggit : string := "curator.actions.open".

Section WithEnv.
Variable E : Env.

Definition init {O} (ilo : collection) : M O t :=
  ilo <- verify_index_list ilo ;;
  ret {| client := il_client ilo; index_list := ilo |}.

Definition do_action : M t unit :=
  s <- get_self ;;
  empty_list_check (indices (index_list s)) ;;
  log loggit Info "Opening selected indices" [] ;;
  try_except
    (for_each (chunk_index_list E (indices (index_list s))) (fun l =>
       api E (client s) (OpenIndex (to_csv E l))))
    report_failure.

End WithEnv.
End Open.

(** ** class Replicas *)
Module Replicas.

Record t : Type := {
  client : client_ref;
  index_list : IndexList;
  count : pyval
}.

Definition loggit : string := "curator.actions.replicas".

Definition set_indices (l : list string) (s : t) : t :=
  {| client := client s; index_list := with_indices l (index_list s);
     count := count s |}.

Section WithEnv.
Variable E : Env.

(** It's okay for count to be zero. *)
Definition init {O} (ilo : collection) (count : pyval) : M O t :=
  ilo <- verify_index_list ilo ;;
  if py_eq_zero count then
    ret {| client := il_client ilo; index_list := ilo; count := count |}
  else if negb (truthy count) then
    raise (Exn MissingArgument
             ("Missing value for " ++ quoted "count") [])
  else
    ret {| client := il_client ilo; index_list := ilo; count := count |}.

Definition do_action : M t unit :=
  s <- get_self ;;
  empty_list_check (indices (index_list s)) ;;
  log loggit Info
    ("Cannot get update replica count of closed indices.  "
     ++ "Omitting any closed indices.") [] ;;
  kept <- run_filter E FilterClosed (indices (index_list s)) ;;
  put_self (set_indices kept s) ;;
  log loggit Info
    "Updating the replica count of selected indices to {0}"
    [AVal (count s)] ;;
  try_except
    (s <- get_self ;;
     for_each (chunk_index_list E (indices (index_list s))) (fun l =>
       api E (client s)
         (PutSettings (to_csv E l)
            ("number_of_replicas=" ++ py_str (count s)))))
    report_failure.

End WithEnv.
End Replicas.

(** ** class DeleteSnapshots *)
Module DeleteSnapshots.

Record t : Type := {
  client : client_ref;
  retry_interval : Z;
  retry_count : Z;
  snapshot_list : SnapshotList;
  repository : string
}.

Definition loggit : string := "curator.actions.delete_snapshots".

Section WithEnv.
Variable E : Env.

Definition init {O} (slo : collection) (retry_interval retry_count : Z)
    : M O t :=
  slo <- verify_snapshot_list slo ;;
  ret {| client := sl_client slo;
         retry_interval := retry_interval;
         retry_count := retry_count;
         snapshot_list := slo;
         repository := sl_repository slo |}.

Definition do_action : M t unit :=
  s <- get_self ;;
  empty_list_check (snapshots (snapshot_list s)) ;;
  log loggit Info "Deleting selected snapshots" [] ;;
  safe <- safe_to_snap E (client s) (repository s)
            (retry_interval s) (retry_count s) ;;
  if negb safe then
    raise (Exn FailedExecution
             ("Unable to delete snapshot(s) because a snapshot is in "
              ++ "state " ++ quoted "IN_PROGRESS") [])
  else
    try_except
      (for_each (snapshots (snapshot_list s)) (fun sn =>
         log loggit Info "Deleting snapshot {0}..." [AStr sn] ;;
         api E (client s) (SnapshotDelete (repository s) sn)))
      report_failure.

End WithEnv.
End DeleteSnapshots.

(** ** class Snapshot *)
Module Snapshot.

Record t : Type := {
  name : string;
  client : client_ref;
  repository : pyval;
  wait_for_completion : bool;
  skip_repo_fs_check : bool;
  state : option string;
  body : string
}.

Definition loggit : string := "curator.actions.snapshot".

Definition set_state (st : string) (s : t) : t :=
  {| name := name s; client := client s; repository := repository s;
     wait_for_completion := wait_for_completion s;
     skip_repo_fs_check := skip_repo_fs_check s;
     state := Some st; body := body s |}.

Section WithEnv.
Variable E : Env.

Definition init {O} (ilo : collection) (repository name : pyval)
    (ignore_unavailable include_global_state partial wait_for_completion
       skip_repo_fs_check : bool) : M O t :=
  ilo <- verify_index_list ilo ;;
  found <- repository_exists E (il_client ilo) repository ;;
  if negb found then
    raise (Exn ActionError
             "Cannot snapshot indices to missing repository: {0}"
             [AVal repository])
  else if negb (truthy name) then
    raise (Exn MissingArgument
             ("No value for " ++ quoted "name" ++ " provided.") [])
  else
    ret {| name := parse_snapshot_name E name;
           client := il_client ilo;
           repository := repository;
           wait_for_completion := wait_for_completion;
           skip_repo_fs_check := skip_repo_fs_check;
           state := None;
           body := create_snapshot_body E (indices ilo) ignore_unavailable
                     include_global_state partial |}.

(** [except IndexError] catches the failed [[0]] on an empty answer, and
    an IndexError from the call itself; anything else passes through. *)
Definition get_state : M t string :=
  fun w =>
    let attempt :=
      (s <- get_self ;;
       found <- snapshot_get E (client s) (repository s) (name s) ;;
       match found with
       | [] => raise (Exn IndexError "list index out of range" [])
       | st :: _ => put_self (set_state st s) ;; ret st
       end) in
    match attempt w with
    | (inl e, w') =>
        if is_IndexError e then
          raise (Exn CuratorException
                   ("Snapshot " ++ quoted "{0}"
                    ++ " not found in repository " ++ quoted "{1}")
                   [AStr (name (self w')); AVal (repository (self w'))]) w'
        else (inl e, w')
    | (inr st, w') => (inr st, w')
    end.

Definition report_state : M t unit :=
  get_state ;;
  s <- get_self ;;
  match state s with
  | Some st =>
      if (st =? "SUCCESS")%string then
        log loggit Info "Snapshot {0} successfully completed."
          [AStr (name s)]
      else
        log loggit Warn "Snapshot {0} completed with state: {0}" [AStr st]
  | None =>
      log loggit Warn "Snapshot {0} completed with state: {0}" [AVal PNone]
  end.

Definition do_action : M t unit :=
  s <- get_self ;;
  (if negb (skip_repo_fs_check s)
   then test_repo_fs E (client s) (repository s)
   else ret tt) ;;
  running <- snapshot_running E (client s) ;;
  if running then
    raise (Exn SnapshotInProgress "Snapshot already in progress." [])
  else
    try_except
      (api E (client s)
         (SnapshotCreate (repository s) (name s) (body s)
            (wait_for_completion s)) ;;
       if wait_for_completion s then report_state
       else
         log loggit Warn
           (quoted "wait_for_completion" ++ " set to {0}. "
            ++ "Remember to check for successful completion manually.")
           [AVal (PBool (wait_for_completion s))])
      report_failure.

End WithEnv.
End Snapshot.

(** ** The chunking primitive *)
Module Chunking.

(** The serialized length of a chunk: its identifiers joined by the
    delimiter. *)
Definition serialized_length (chunk : list string) : nat :=
  String.length (String.concat "," chunk).

Definition fits (max_count max_size : nat) (chunk : list string) : bool :=
  (List.length chunk <=? max_count)%nat
  && (serialized_length chunk <=? max_size)%nat.

(** Modelled from the spec: [chunk_index_list] of [curator.utils], which
    is not part of the sources at hand.  Iterate the input and accumulate
    into the current chunk while adding an element would not violate
    either bound; on violation, close the current chunk and start a new
    one with that element.  An element always enters an empty chunk, so
    that an oversized element occupies a chunk of its own. *)
Fixpoint chunk_from (max_count max_size : nat) (current : list string)
    (rest : list string) : list (list string) :=
  match rest with
  | [] =>
      match current with
      | [] => []
      | _ :: _ => [current]
      end
  | x :: rest' =>
      match current with
      | [] => chunk_from max_count max_size [x] rest'
      | _ :: _ =>
          if fits max_count max_size (current ++ [x])
          then chunk_from max_count max_size (current ++ [x]) rest'
          else current :: chunk_from max_count max_size [x] rest'
      end
  end.

Definition chunk_index_list (max_count max_size : nat)
    (indices : list string) : list (list string) :=
  chunk_from max_count max_size [] indices.

(** The defaults the spec gives: 3000 identifiers, 3 KiB. *)
Definition default_max_count : nat := 3000.
Definition default_max_size : nat := 3072.

(** What the claim asks of one chunk. *)
Definition chunk_ok (max_count max_size : nat) (chunk : list string)
    : Prop :=
  chunk <> []
  /\ (List.length chunk <= max_count)%nat
  /\ ((serialized_length chunk <= max_size)%nat
      \/ exists x, chunk = [x] /\ (max_size < String.length x)%nat).

End Chunking.

(** ** Observations on a trace *)

(** The events a computation added: those of [after] behind [before]. *)
Definition since {O} (before after : world O) : list event :=
  skipn (List.length (trace before)) (trace after).

(** Every call that was handed the client, in order. *)
Definition call_of (e : event) : list call :=
  match e with EvCall _ q _ => [q] | _ => [] end.

Definition calls (t : list event) : list call := flat_map call_of t.

(** The calls made directly on the client, in order. *)
Definition api_of (e : event) : list api_call :=
  match e with EvCall _ (Api a) _ => [a] | _ => [] end.

Definition api_calls (t : list event) : list api_call := flat_map api_of t.

Definition is_delete (a : api_call) : bool :=
  match a with DeleteIndex _ _ => true | _ => false end.

Definition is_snapshot_get (q : call) : bool :=
  match q with SnapshotGet _ _ => true | _ => false end.

Definition is_test_repo_fs (q : call) : bool :=
  match q with TestRepoFs _ => true | _ => false end.

Definition is_snapshot_create (a : api_call) : bool :=
  match a with SnapshotCreate _ _ _ _ => true | _ => false end.

Definition delete_calls (t : list event) : list api_call :=
  filter is_delete (api_calls t).

(** The answers the polls for a snapshot in progress received. *)
Definition poll_of (e : event) : list (exn + value) :=
  match e with
  | EvCall _ (PollInProgress _) a => [a]
  | _ => []
  end.

Definition poll_answers (t : list event) : list (exn + value) :=
  flat_map poll_of t.



Definition busy : exn + value := inr (VBool true).
Definition idle : exn + value := inr (VBool false).


(** ** The delete retry loop, as the specification words it *)
Module DeleteRetry.
Import DeleteIndices.

(** One attempt: the bulk delete call on the working list, then the
    re-query of the cluster that computes which identifiers of the
    working list are still present. *)
Definition attempt (E : Env) (s : t) (working_list : list string)
    : M t (list string) :=
  for_each working_list (fun i =>
    log loggit Info "---deleting index {0}" [AStr i]) ;;
  api E (client s)
    (DeleteIndex (to_csv E working_list) (master_timeout s)) ;;
  still_present E (client s) working_list.

(** What [_verify_result] logs. *)
Definition verify_logs (result : list string) (count : nat) : list event :=
  match result with
  | [] =>
      [EvLog loggit Debug
         "Successfully deleted all indices on try #{0}" [ANat count]]
  | _ :: _ =>
      EvLog loggit Error
        "The following indices failed to delete on try #{0}:" [ANat count]
      :: map (fun idx => EvLog loggit Error "---{0}" [AStr idx]) result
  end.

Definition after_logs (w : world t) (logs : list event) : world t :=
  World (self w) (trace w ++ logs).

Definition gave_up (result : list string) : event :=
  EvLog loggit Error
    "Unable to delete the following indices after 3 attempts: {0}"
    [ANames result].

(** [retries E s k l w out]: starting with attempt number [k] on the
    working list [l] in the world [w], the loop ends in [out].  An
    attempt that finds nothing still present ends the loop; one that
    finds something is followed by another attempt on what it found, as
    long as fewer than three attempts were made; after the third the
    survivors are logged and the loop ends normally.  An exception of
    the cluster ends it at once. *)
Inductive retries (E : Env) (s : t)
    : nat -> list string -> world t -> (exn + unit) * world t -> Prop :=
| cluster_raised k l w e w1 :
    k <= 3 ->
    attempt E s l w = (inl e, w1) ->
    retries E s k l w (inl e, w1)
| converged k l w w1 :
    k <= 3 ->
    attempt E s l w = (inr [], w1) ->
    retries E s k l w (inr tt, after_logs w1 (verify_logs [] k))
| retried k l w remaining w1 out :
    k < 3 ->
    attempt E s l w = (inr remaining, w1) ->
    remaining <> [] ->
    retries E s (S k) remaining
      (after_logs w1 (verify_logs remaining k)) out ->
    retries E s k l w out
| exhausted l w remaining w1 :
    attempt E s l w = (inr remaining, w1) ->
    remaining <> [] ->
    retries E s 3 l w
      (inr tt,
       after_logs w1 (verify_logs remaining 3 ++ [gave_up remaining])).

(** The identifiers of [l] that the index set [present] still holds. *)
Definition survivors (present l : list string) : list string :=
  filter (fun i => existsb (String.eqb i) present) l.

(** The delete call of an attempt on [l]. *)
Definition delete_of (E : Env) (s : t) (l : list string) : api_call :=
  DeleteIndex (to_csv E l) (master_timeout s).

(** One run of [__chunk_loop] as the cluster sees it: the chunk, on
    which the first attempt is made, and the working lists of the
    attempts after the first. *)
Definition run : Type := (list string * list (list string))%type.

(** The delete calls of a run, in order. *)
Definition run_deletes (E : Env) (s : t) (r : run) : list api_call :=
  map (delete_of E s) (fst r :: snd r).

(** At most two attempts follow the first, each of them on a non-empty
    part of the chunk. *)
Definition run_ok (r : run) : Prop :=
  List.length (snd r) <= 2
  /\ Forall (fun x => x <> [] /\ incl x (fst r)) (snd r).

End DeleteRetry.

(** ** Outcomes and vocabulary of the statements *)
Module Outcome.

(** What the empty-collection guard raises. *)
Definition empty_collection : exn :=
  Exn EmptyCollectionError "collection is empty" [].

(** What [Alias.body] raises on an empty operation list. *)
Definition no_operations : exn :=
  Exn ActionError
    ("No " ++ quoted "add" ++ " or " ++ quoted "remove" ++ " operations") [].

(** The failed attribute lookup on an alias that has no client yet. *)
Definition unbound_client : exn :=
  Exn AttributeError "'NoneType' object has no attribute 'indices'" [].

(** The uniform execution failure raised for [cause]. *)
Definition failed (cause : exn) : exn :=
  Exn FailedExecution "Exception encountered: {0}" [AExn cause].


Definition zero_body : string := "number_of_replicas=0".

(** The alias after a loop of [add] or [remove] over [l]. *)
Definition accumulated (mk : string -> pyval -> alias_op)
    (l : list string) (s : Alias.t) : Alias.t :=
  {| Alias.alias := Alias.alias s;
     Alias.actions :=
       Alias.actions s ++ map (fun i => mk i (Alias.alias s)) l;
     Alias.client := Alias.client s |}.

(** [if not self.client: self.client = ilo.client] *)
Definition bound (ilo : IndexList) (s : Alias.t) : Alias.t :=
  match Alias.client s with
  | Some _ => s
  | None => Alias.bind_client (il_client ilo) s
  end.

Definition bound_client (ilo : IndexList) (s : Alias.t) : client_ref :=
  match Alias.client s with
  | Some c => c
  | None => il_client ilo
  end.


End Outcome.

(** ** What an action did, step by step *)

(** The calls with their answers and the waits, in order; log lines and
    the filters of the collection are left out. *)
Inductive step : Type :=
| Did (c : client_ref) (q : call) (a : exn + value)
| Waited (seconds : Z).

Definition step_of (e : event) : list step :=
  match e with
  | EvCall c q a => [Did c q a]
  | EvSleep z => [Waited z]
  | _ => []
  end.

Definition steps (t : list event) : list step := flat_map step_of t.

(** The answer of a call that returned and whose value is ignored. *)
Definition done_ok : exn + value := inr VNone.

(** A direct client call that returned. *)
Definition did (c : client_ref) (a : api_call) : step :=
  Did c (Api a) done_ok.

(** A direct client call that raised [e]. *)
Definition did_raise (c : client_ref) (a : api_call) (e : exn) : step :=
  Did c (Api a) (inl e).

(** ** The steps the bulk actions are expected to take *)
Module Protocol.

(** Opening one chunk. *)
Definition open_chunk (E : Env) (c : client_ref) (l : list string) : step :=
  did c (OpenIndex (to_csv E l)).

(** Putting one settings body on one chunk. *)
Definition put_chunk (E : Env) (c : client_ref) (body : string)
    (l : list string) : step :=
  did c (PutSettings (to_csv E l) body).

(** Closing one chunk: the flush, then the close. *)
Definition flush_chunk (E : Env) (l : list string) : api_call :=
  Flush (to_csv E l) true.

Definition close_chunk (E : Env) (l : list string) : api_call :=
  CloseIndex (to_csv E l) true.

Definition flush_then_close (E : Env) (c : client_ref) (l : list string)
    : list step :=
  [did c (flush_chunk E l); did c (close_chunk E l)].

(** The wait after a merge. *)
Definition pause (delay : Z) : list step :=
  if (0 <? delay)%Z then [Waited delay] else [].

(** Merging one index, then the wait. *)
Definition merge_then_pause (c : client_ref) (max_num_segments : pyval)
    (delay : Z) (index_name : string) : list step :=
  did c (Forcemerge index_name max_num_segments) :: pause delay.

End Protocol.

(** ** Scenarios

    Concrete clusters and collections on which the statements below are
    exercised. *)
Module Scenario.

(** A cluster that accepts every call.  [present] is its index set as a
    function of the history, [running] its answer to the running-snapshot
    check, the repository is busy at the first [busy_polls] polls, and
    the filters drop the [closed] and the already [merged] indices. *)
Definition cluster (present : list event -> list string) (running : bool)
    (busy_polls : nat) (closed merged : string -> bool) : Env :=
  {| es_api := fun _ _ _ => inr tt;
     es_snapshot_get := fun _ _ _ _ => inr ["SUCCESS"];
     es_get_indices := fun t _ => inr (present t);
     es_snapshot_running := fun _ _ => inr running;
     es_test_repo_fs := fun _ _ _ => inr tt;
     es_repository_exists := fun _ _ _ => inr true;
     es_snapshot_in_progress :=
       fun t _ _ => inr (List.length (poll_answers t) <? busy_polls)%nat;
     ilo_filter_closed := fun _ l => inr (filter (fun i => negb (closed i)) l);
     ilo_filter_forceMerged :=
       fun _ _ l => inr (filter (fun i => negb (merged i)) l);
     to_csv := String.concat ",";
     chunk_index_list :=
       Chunking.chunk_index_list Chunking.default_max_count
         Chunking.default_max_size;
     create_snapshot_body := fun l _ _ _ => String.concat "," l;
     parse_snapshot_name := py_str |}.

Definition nothing (i : string) : bool := false.
Definition everything (i : string) : bool := true.

Definition quiet : Env :=
  cluster (fun _ => []) false 0 nothing nothing.

(** Deletes take effect late: after the first delete call two indices are
    still there, after the second none. *)
Definition slow_delete : Env :=
  cluster
    (fun t =>
       match List.length (delete_calls t) with
       | 1 => ["logs-4"; "logs-5"]
       | _ => []
       end)
    false 0 nothing nothing.

(** Two indices never go away. *)
Definition stuck_delete : Env :=
  cluster (fun _ => ["logs-4"; "logs-5"]) false 0 nothing nothing.

Definition snapshot_running : Env :=
  cluster (fun _ => []) true 0 nothing nothing.


Definition always_busy : Env :=
  cluster (fun _ => []) false 1000 nothing nothing.

Definition all_closed : Env :=
  cluster (fun _ => []) false 0 everything nothing.

Definition all_merged : Env :=
  cluster (fun _ => []) false 0 nothing everything.

Definition five : list string :=
  ["logs-1"; "logs-2"; "logs-3"; "logs-4"; "logs-5"].

Definition ilo_five : IndexList := {| il_client := 1; indices := five |}.
Definition ilo_two : IndexList :=
  {| il_client := 1; indices := ["metrics-1"; "metrics-2"] |}.
Definition ilo_one : IndexList := {| il_client := 1; indices := ["logs-1"] |}.
Definition ilo_empty : IndexList := {| il_client := 1; indices := [] |}.


(** Objects the actions are run on. *)
Definition delete_five : world DeleteIndices.t :=
  World {| DeleteIndices.index_list := ilo_five;
           DeleteIndices.client := 1;
           DeleteIndices.master_timeout := "30s" |} [].

Definition nightly : world Snapshot.t :=
  World {| Snapshot.name := "nightly";
           Snapshot.client := 1;
           Snapshot.repository := PStr "backups";
           Snapshot.wait_for_completion := true;
           Snapshot.skip_repo_fs_check := false;
           Snapshot.state := None;
           Snapshot.body := "logs-1" |} [].

Definition fresh_alias : world Alias.t :=
  World {| Alias.alias := PStr "current"; Alias.actions := [];
           Alias.client := Some 1 |} [].


Definition on_empty {O} (o : O) : world O := World o [].

Definition open_five : world Open.t :=
  World {| Open.client := 1; Open.index_list := ilo_five |} [].

Definition close_five : world Close.t :=
  World {| Close.index_list := ilo_five; Close.client := 1 |} [].

Definition merge_five : world ForceMerge.t :=
  World {| ForceMerge.client := 1;
           ForceMerge.index_list := ilo_five;
           ForceMerge.max_num_segments := PInt 1;
           ForceMerge.delay := 2 |} [].

Definition replicas_five : world Replicas.t :=
  World {| Replicas.client := 1;
           Replicas.index_list := ilo_five;
           Replicas.count := PInt 2 |} [].

Definition unbound_alias : world Alias.t :=
  World {| Alias.alias := PStr "current"; Alias.actions := [];
           Alias.client := None |} [].

End Scenario.

(** * Properties *)

(** ** Chunking *)
Module ChunkingFacts.
Import Chunking.

Lemma string_length_append (a b : string) :
  String.length (a ++ b) = String.length a + String.length b.
Proof.
  induction a as [|ch a IH]; simpl; [reflexivity|].
  now rewrite IH.
Qed.

Lemma serialized_length_single (x : string) :
  serialized_length [x] = String.length x.
Proof. reflexivity. Qed.

Lemma serialized_length_cons (x y : string) (l : list string) :
  serialized_length (x :: y :: l)
  = String.length x + 1 + serialized_length (y :: l).
Proof.
  unfold serialized_length.
  change (String.concat "," (x :: y :: l))
    with (x ++ "," ++ String.concat "," (y :: l))%string.
  rewrite !string_length_append. simpl. lia.
Qed.

(** An identifier is no longer than a chunk that holds it. *)
Lemma member_length_le (x : string) (chunk : list string) :
  In x chunk -> String.length x <= serialized_length chunk.
Proof.
  induction chunk as [|y l IH]; intros Hin; [contradiction|].
  destruct l as [|z l].
  - destruct Hin as [->|[]]. rewrite serialized_length_single. lia.
  - rewrite serialized_length_cons.
    destruct Hin as [->|Hin]; [lia|].
    specialize (IH Hin). lia.
Qed.

Lemma concat_chunk_from (max_count max_size : nat) (rest : list string) :
  forall current,
    List.concat (chunk_from max_count max_size current rest)
    = current ++ rest.
Proof.
  induction rest as [|x rest IH]; intros current; simpl.
  - destruct current; simpl; [reflexivity|].
    now rewrite !app_nil_r.
  - destruct current as [|c current].
    + now rewrite IH.
    + destruct (fits max_count max_size ((c :: current) ++ [x])).
      * rewrite IH. now rewrite <- app_assoc.
      * simpl. rewrite IH. reflexivity.
Qed.

Lemma single_ok (max_count max_size : nat) (x : string) :
  1 <= max_count -> chunk_ok max_count max_size [x].
Proof.
  intros Hc. split; [discriminate|]. split; [exact Hc|].
  rewrite serialized_length_single.
  destruct (le_lt_dec (String.length x) max_size) as [Hle|Hlt].
  - now left.
  - right. now exists x.
Qed.

Lemma fits_ok (max_count max_size : nat) (chunk : list string) :
  chunk <> [] -> fits max_count max_size chunk = true ->
  chunk_ok max_count max_size chunk.
Proof.
  intros Hne Hfits. unfold fits in Hfits.
  apply andb_true_iff in Hfits as [Hc Hs].
  apply Nat.leb_le in Hc. apply Nat.leb_le in Hs.
  split; [exact Hne|]. split; [exact Hc|]. now left.
Qed.

Lemma chunk_from_ok (max_count max_size : nat) (rest : list string) :
  1 <= max_count ->
  forall current,
    current = [] \/ chunk_ok max_count max_size current ->
    Forall (chunk_ok max_count max_size)
      (chunk_from max_count max_size current rest).
Proof.
  intros Hc.
  induction rest as [|x rest IH]; intros current Hcur; simpl.
  - destruct current as [|c current]; [constructor|].
    destruct Hcur as [Habs|Hok]; [discriminate|].
    constructor; [exact Hok|constructor].
  - destruct current as [|c current].
    + apply IH. right. now apply single_ok.
    + destruct Hcur as [Habs|Hok]; [discriminate|].
      destruct (fits max_count max_size ((c :: current) ++ [x])) eqn:Hfits.
      * apply IH. right. apply fits_ok; [discriminate|exact Hfits].
      * constructor; [exact Hok|].
        apply IH. right. now apply single_ok.
Qed.

(** A chunk that holds an oversized identifier holds nothing else. *)
Lemma oversized_alone (max_count max_size : nat) (chunk : list string)
    (x : string) :
  chunk_ok max_count max_size chunk ->
  In x chunk -> max_size < String.length x -> chunk = [x].
Proof.
  intros (_ & _ & [Hsize|(y & -> & _)]) Hin Hbig.
  - apply member_length_le in Hin. lia.
  - destruct Hin as [->|[]]. reflexivity.
Qed.

(** C9.  For every identifier sequence and bounds (with room for at
    least one identifier per chunk), the chunks of [chunk_index_list]
    concatenate, in order, to the input exactly; every chunk is non-empty
    and within the count bound, and within the size bound unless it is a
    single identifier that is itself longer than the size bound; such an
    oversized identifier is alone in its chunk; and equal inputs give
    equal chunks. *)
Theorem chunk_index_list_partitions (max_count max_size : nat)
    (indices : list string) :
  1 <= max_count ->
  List.concat (chunk_index_list max_count max_size indices) = indices
  /\ Forall (chunk_ok max_count max_size)
       (chunk_index_list max_count max_size indices)
  /\ (forall chunk x,
        In chunk (chunk_index_list max_count max_size indices) ->
        In x chunk -> max_size < String.length x -> chunk = [x])
  /\ (forall indices',
        indices' = indices ->
        chunk_index_list max_count max_size indices'
        = chunk_index_list max_count max_size indices).
Proof.
  intros Hc.
  assert (Hok : Forall (chunk_ok max_count max_size)
                  (chunk_index_list max_count max_size indices)).
  { apply chunk_from_ok; [exact Hc|now left]. }
  split; [apply concat_chunk_from|].
  split; [exact Hok|].
  split.
  - intros chunk x Hin Hx Hbig.
    rewrite Forall_forall in Hok.
    now apply (oversized_alone max_count max_size chunk x (Hok _ Hin)).
  - intros indices' ->. reflexivity.
Qed.

End ChunkingFacts.

(** ** Reasoning about runs *)

Lemma since_app {O} (w w' : world O) (l : list event) :
  trace w' = trace w ++ l -> since w w' = l.
Proof.
  intros H. unfold since. rewrite H.
  rewrite skipn_app, skipn_all, Nat.sub_diag. reflexivity.
Qed.

Lemma since_refl {O} (w : world O) : since w w = [].
Proof. apply since_app. now rewrite app_nil_r. Qed.

(** Bring a trace into the form [trace w ++ l] and read off [l]. *)
Ltac read_since :=
  match goal with
  | |- context [since ?w ?w'] =>
      erewrite (since_app w w') by
        (simpl; rewrite <- ?app_assoc; simpl; reflexivity)
  end.

Ltac read_since_in H :=
  match type of H with
  | context [since ?w ?w'] =>
      erewrite (since_app w w') in H by
        (simpl; rewrite <- ?app_assoc; simpl; reflexivity)
  end.

Ltac case_answer :=
  match goal with
  | |- context [match ?x with _ => _ end] =>
      match x with
      | context [match _ with _ => _ end] => fail 1
      | _ => destruct x eqn:?
      end
  | H : context [match ?x with _ => _ end] |- _ =>
      match x with
      | context [match _ with _ => _ end] => fail 1
      | _ => destruct x eqn:?
      end
  end.

(** ** Snapshot: mutual exclusion *)
Module SnapshotFacts.
Import Snapshot.

Section WithEnv.
Variable E : Env.

(** C2.  Let the filesystem check of the repository be skipped, or let
    the cluster pass it.  If the cluster then answers the
    snapshot-in-progress check with "a snapshot is running", [do_action]
    raises SnapshotInProgress.  All it has asked of the cluster by then
    is the filesystem check (unless skipped) and the snapshot-in-progress
    check itself: no call is made directly on the client, so there is no
    snapshot-create call, and the object is left as it was. *)
Theorem running_snapshot_blocks_create (w : world t) :
  let s := self w in
  let c := client s in
  let fs_passed := EvCall c (TestRepoFs (repository s)) (inr VNone) in
  let seen :=
    if skip_repo_fs_check s then trace w else trace w ++ [fs_passed] in
  let out := do_action E w in
  let new := since w (snd out) in
  skip_repo_fs_check s = true
  \/ es_test_repo_fs E (trace w) c (repository s) = inr tt ->
  es_snapshot_running E seen c = inr true ->
  fst out = inl (Exn SnapshotInProgress "Snapshot already in progress." [])
  /\ calls new
     = (if skip_repo_fs_check s then [] else [TestRepoFs (repository s)])
       ++ [SnapshotRunning]
  /\ In (EvCall c SnapshotRunning busy) new
  /\ filter is_snapshot_create (api_calls new) = []
  /\ api_calls new = []
  /\ self (snd out) = s.
Proof.
  intros s c fs_passed seen out new Hfs Hrunning.
  subst s c fs_passed seen out new.
  cbv [do_action bind get_self test_repo_fs snapshot_running
    try_except api ask report_state get_state report_failure log
    emit raise ret snapshot_get put_self busy].
  cbn [self trace].
  destruct (skip_repo_fs_check (self w)) eqn:Hskip; cbn [negb].
  - cbn [self trace fst snd]. rewrite Hrunning.
    cbn [self trace fst snd].
    erewrite since_app by (cbn [trace]; reflexivity).
    repeat split; try reflexivity. now left.
  - destruct Hfs as [Habs|Hfs]; [discriminate|].
    rewrite Hfs. cbn [self trace fst snd]. rewrite Hrunning.
    cbn [self trace fst snd].
    erewrite since_app
      by (cbn [trace]; rewrite <- ?app_assoc; reflexivity).
    repeat split; try reflexivity. right. now left.
Qed.

End WithEnv.
End SnapshotFacts.

(** ** Constructors *)
Module ConstructorFacts.

(** C7.  Constructing Allocation with a missing key, a missing value or
    an allocation type outside require/include/exclude raises, and
    constructing ForceMerge without max_num_segments raises; in both
    cases the world is exactly as before, so nothing was asked of the
    cluster.  On a proper IndexList the exception is MissingArgument for a
    missing parameter and ValueError for the allocation type; on anything
    else it is the TypeError of the collection check. *)
Theorem construction_fails_before_any_call {O} (c : collection)
    (key value allocation_type max_num_segments : pyval) (delay : Z)
    (w : world O) :
  (truthy key = false \/ truthy value = false
   \/ py_in allocation_type ["require"; "include"; "exclude"] = false ->
   exists e,
     Allocation.init c key value allocation_type w = (inl e, w)
     /\ exn_cls e
        = match c with
          | AnIndexList _ =>
              if truthy key && truthy value then ValueError
              else MissingArgument
          | _ => TypeError
          end)
  /\ (truthy max_num_segments = false ->
      exists e,
        ForceMerge.init c max_num_segments delay w = (inl e, w)
        /\ exn_cls e
           = match c with
             | AnIndexList _ => MissingArgument
             | _ => TypeError
             end).
Proof.
  split.
  - intros Hbad.
    unfold Allocation.init, verify_index_list, bind, raise, ret.
    destruct c as [ilo|slo|v]; simpl; eauto.
    destruct (truthy key); simpl; eauto.
    destruct (truthy value); simpl; eauto.
    destruct (py_in allocation_type _) eqn:Hin; simpl; eauto.
    destruct Hbad as [H|[H|H]]; discriminate.
  - intros Hbad.
    unfold ForceMerge.init, verify_index_list, bind, raise, ret.
    destruct c as [ilo|slo|v]; simpl; eauto.
    rewrite Hbad. simpl. eauto.
Qed.

End ConstructorFacts.

(** ** Loops *)

(** A loop whose body leaves [self] alone and only adds events: it runs
    the body on a prefix of the list, on all of it when nothing raises,
    and what is observed through [proj] is what the bodies of that prefix
    show. *)
Section ForEach.
Context {O A X : Type}.
Variable body : A -> M O unit.
Variable p : event -> list X.
Variable shown : A -> list X.
Variable failure : A -> exn -> event.

Hypothesis body_adds :
  forall x w, exists evs,
    body x w = (fst (body x w), World (self w) (trace w ++ evs))
    /\ flat_map p evs = shown x
    /\ (forall e, fst (body x w) = inl e -> In (failure x e) evs).

Lemma for_each_prefix (l : list A) :
  forall w, exists n evs,
    for_each l body w
    = (fst (for_each l body w), World (self w) (trace w ++ evs))
    /\ flat_map p evs = flat_map shown (firstn n l)
    /\ n <= List.length l
    /\ (fst (for_each l body w) = inr tt -> n = List.length l)
    /\ (forall e, fst (for_each l body w) = inl e ->
        exists x, nth_error l (n - 1) = Some x /\ 0 < n
                  /\ In (failure x e) evs).
Proof.
  induction l as [|x l IH]; intros w.
  - exists 0, []. simpl. unfold ret. simpl. rewrite app_nil_r.
    destruct w; simpl. repeat split; auto. intros e He. discriminate.
  - destruct (body_adds x w) as (evs & Hrun & Hshow & Hfail).
    simpl. unfold bind. rewrite Hrun.
    destruct (fst (body x w)) as [e|[]] eqn:Hres.
    + exists 1, evs. simpl. rewrite app_nil_r.
      repeat split; auto; try lia.
      * intros Habs. discriminate.
      * intros e' He'. injection He' as <-. exists x. auto.
    + destruct (IH (World (self w) (trace w ++ evs)))
        as (n & evs' & Hrun' & Hshow' & Hn & Hall & Hfail').
      exists (S n), (evs ++ evs'). rewrite Hrun'. simpl.
      rewrite <- app_assoc, flat_map_app, Hshow, Hshow'.
      repeat split; auto; try lia.
      * intros e He. destruct (Hfail' e He) as (y & Hy & Hpos & Hin).
        exists y. rewrite Nat.sub_0_r.
        destruct n as [|n]; [lia|]. simpl in Hy.
        rewrite Nat.sub_0_r in Hy.
        repeat split; auto; try lia. apply in_or_app. now right.
Qed.

End ForEach.

Section ApiLoops.
Variable E : Env.
Context {O : Type}.

Lemma api_adds (c : client_ref) (a : api_call) (w : world O) :
  exists evs,
    api E c a w = (fst (api E c a w), World (self w) (trace w ++ evs))
    /\ flat_map api_of evs = [a]
    /\ (forall e, fst (api E c a w) = inl e ->
        In (EvCall c (Api a) (inl e)) evs).
Proof.
  unfold api, ask. simpl.
  eexists. split; [reflexivity|]. split; [reflexivity|].
  intros e He. rewrite He. now left.
Qed.

End ApiLoops.

(** ** Loops, with an invariant *)
Section ForEachInvariant.
Context {O A : Type}.
Variable body : A -> M O unit.
Variable inv : list A -> list event -> Prop.
Variable broke : list A -> A -> exn -> list event -> Prop.

Hypothesis body_keeps :
  forall done x w evs0,
    inv done evs0 ->
    exists evs,
      body x w = (fst (body x w), World (self w) (trace w ++ evs))
      /\ (fst (body x w) = inr tt -> inv (done ++ [x]) (evs0 ++ evs))
      /\ (forall e, fst (body x w) = inl e ->
          broke done x e (evs0 ++ evs)).

Lemma for_each_invariant (l : list A) :
  forall done w evs0,
    inv done evs0 ->
    exists evs,
      for_each l body w
      = (fst (for_each l body w), World (self w) (trace w ++ evs))
      /\ (fst (for_each l body w) = inr tt ->
          inv (done ++ l) (evs0 ++ evs))
      /\ (forall e, fst (for_each l body w) = inl e ->
          exists mid x rest,
            l = mid ++ x :: rest
            /\ broke (done ++ mid) x e (evs0 ++ evs)).
Proof.
  induction l as [|x l IH]; intros done w evs0 Hinv.
  - exists []. simpl. unfold ret. simpl. rewrite !app_nil_r.
    destruct w. repeat split; auto. intros e He. discriminate.
  - destruct (body_keeps done x w evs0 Hinv) as (evs & Hrun & Hok & Hbad).
    simpl for_each. unfold bind. rewrite Hrun.
    destruct (fst (body x w)) as [e|[]] eqn:Hres.
    + exists evs. simpl. split; [reflexivity|].
      split; [discriminate|].
      intros e' He'. injection He' as <-.
      exists [], x, l. rewrite app_nil_r. split; [reflexivity|].
      now apply Hbad.
    + destruct (IH (done ++ [x]) (World (self w) (trace w ++ evs))
                  (evs0 ++ evs) (Hok eq_refl))
        as (evs' & Hrun' & Hok' & Hbad').
      exists (evs ++ evs'). rewrite Hrun'. simpl.
      rewrite <- !app_assoc.
      split; [reflexivity|]. split.
      * intros Hr. specialize (Hok' Hr).
        rewrite <- !app_assoc in Hok'. exact Hok'.
      * intros e He. destruct (Hbad' e He) as (mid & y & rest & -> & Hb).
        exists (x :: mid), y, rest. split; [reflexivity|].
        rewrite <- !app_assoc in Hb. exact Hb.
Qed.

End ForEachInvariant.

Lemma steps_app (a b : list event) : steps (a ++ b) = steps a ++ steps b.
Proof. apply flat_map_app. Qed.

(** A loop of single client calls: every call of the done part returned,
    and the loop stops at the first call that raises. *)
Lemma api_loop_steps {O A} (E : Env) (c : client_ref) (mk : A -> api_call)
    (l : list A) (w : world O) :
  exists evs,
    for_each l (fun x => api E c (mk x)) w
    = (fst (for_each l (fun x => api E c (mk x)) w),
       World (self w) (trace w ++ evs))
    /\ (fst (for_each l (fun x => api E c (mk x)) w) = inr tt ->
        steps evs = map (fun x => did c (mk x)) l)
    /\ (forall e,
          fst (for_each l (fun x => api E c (mk x)) w) = inl e ->
          exists before x rest,
            l = before ++ x :: rest
            /\ steps evs
               = map (fun x => did c (mk x)) before
                 ++ [did_raise c (mk x) e]).
Proof.
  pose (inv := fun (before : list A) (evs : list event) =>
                 steps evs = map (fun x => did c (mk x)) before).
  pose (broke := fun (before : list A) (x : A) (e : exn)
                     (evs : list event) =>
                   steps evs
                   = map (fun x => did c (mk x)) before
                     ++ [did_raise c (mk x) e]).
  assert (Hstep : forall before x (w0 : world O) evs0,
    inv before evs0 ->
    exists evs,
      api E c (mk x) w0
      = (fst (api E c (mk x) w0), World (self w0) (trace w0 ++ evs))
      /\ (fst (api E c (mk x) w0) = inr tt ->
          inv (before ++ [x]) (evs0 ++ evs))
      /\ (forall e, fst (api E c (mk x) w0) = inl e ->
          broke before x e (evs0 ++ evs))).
  { intros before x w0 evs0 Hinv. unfold inv, broke in *.
    unfold api, ask. simpl.
    eexists. split; [reflexivity|]. split.
    - intros Hr. rewrite steps_app, Hinv, map_app. simpl.
      unfold steps. simpl. rewrite Hr. reflexivity.
    - intros e He. rewrite steps_app, Hinv.
      unfold steps. simpl. rewrite He. reflexivity. }
  destruct (for_each_invariant (fun x => api E c (mk x)) inv broke Hstep
              l [] w [] eq_refl)
    as (evs & Hrun & Hok & Hbad).
  exists evs. split; [exact Hrun|]. split; [exact Hok|exact Hbad].
Qed.

(** Find the loop of client calls in the goal and bring in what
    [api_loop_steps] says about it. *)
Ltac api_loop E c mk :=
  match goal with
  | |- context [for_each ?chunks ?b ?w1] =>
      change (for_each chunks b w1)
        with (for_each chunks (fun x => api E c (mk x)) w1);
      destruct (api_loop_steps E c mk chunks w1)
        as (evs & Hrun & Hok & Hbad);
      set (loop := for_each chunks (fun x => api E c (mk x)) w1) in *
  end.

(** ** Replicas *)
Module ReplicasFacts.
Import Replicas Outcome Protocol.

(** C10.  Constructing Replicas with count 0 succeeds, leaving the world
    untouched, and yields an object whose count is 0; constructing it
    with count None raises MissingArgument, again with the world
    untouched and so before any call to the cluster.  Every call
    [do_action] of the zero-count object makes directly on the client is
    a put-settings call with body [number_of_replicas=0].  On a non-empty
    collection of which the closed-index filter keeps [kept], the calls
    to the cluster are exactly these: one put-settings call with body
    [number_of_replicas=0] per chunk of [kept], in order, each of which
    returned, up to the end when [do_action] returns normally, and
    otherwise up to the first call that raised, whose cause is wrapped
    in the FailedExecution that [do_action] raises. *)
Theorem zero_count_is_a_count (E : Env) (ilo : IndexList)
    (kept : list string) (t : list event) :
  let obj := {| client := il_client ilo; index_list := ilo;
                count := PInt 0 |} in
  let w := World obj t in
  let omitting :=
    EvLog loggit Info
      ("Cannot get update replica count of closed indices.  "
       ++ "Omitting any closed indices.") [] in
  let chunks := chunk_index_list E kept in
  let out := do_action E w in
  let new := since w (snd out) in
  init (AnIndexList ilo) (PInt 0) w = (inr obj, w)
  /\ init (AnIndexList ilo) PNone w
     = (inl (Exn MissingArgument
               ("Missing value for " ++ quoted "count") []), w)
  /\ Forall (fun a => exists index, a = PutSettings index zero_body)
       (api_calls new)
  /\ (indices ilo <> [] ->
      ilo_filter_closed E (t ++ [omitting]) (indices ilo) = inr kept ->
      (fst out = inr tt
       /\ steps new = map (put_chunk E (il_client ilo) zero_body) chunks)
      \/ exists e before l rest,
           fst out = inl (failed e)
           /\ chunks = before ++ l :: rest
           /\ steps new
              = map (put_chunk E (il_client ilo) zero_body) before
                ++ [did_raise (il_client ilo)
                      (PutSettings (to_csv E l) zero_body) e]).
Proof.
  intros obj w omitting chunks out new.
  split; [reflexivity|]. split; [reflexivity|].
  subst chunks out new omitting w obj. unfold do_action.
  cbv [bind get_self empty_list_check raise ret log emit run_filter
       put_self try_except report_failure].
  cbn [self trace index_list client count].
  destruct (indices ilo) as [|i0 rest0] eqn:Hidx.
  { split; [|intros Habs; contradiction].
    cbn [fst snd]. rewrite since_refl. constructor. }
  cbn [self trace fst snd].
  split.
  - match goal with
    | |- context [ilo_filter_closed E ?tr ?l] =>
        destruct (ilo_filter_closed E tr l) as [e|kept'] eqn:Hfilter
    end.
    { cbn [fst snd self trace].
      erewrite since_app
        by (cbn [trace]; rewrite <- ?app_assoc; reflexivity).
      constructor. }
    cbn [self trace fst snd set_indices with_indices index_list indices
         client count].
    match goal with
    | |- context [for_each ?chunks ?b ?w0] =>
        destruct (for_each_prefix b api_of
                    (fun l => [PutSettings (to_csv E l) zero_body])
                    (fun l e => EvCall (il_client ilo)
                                  (Api (PutSettings (to_csv E l) zero_body))
                                  (inl e))
                    (fun x w1 => api_adds E (il_client ilo) _ w1) chunks w0)
          as (n & evs & Hrun & Hshow & _);
        set (loop := for_each chunks b w0) in *
    end.
    rewrite Hrun. clearbody loop.
    assert (Hcalls : flat_map api_of evs
                     = map (fun l => PutSettings (to_csv E l) zero_body)
                         (firstn n (chunk_index_list E kept'))).
    { rewrite Hshow. clear.
      induction (firstn n (chunk_index_list E kept'));
        simpl; congruence. }
    assert (Hall : Forall
                     (fun a => exists index, a = PutSettings index zero_body)
                     (flat_map api_of evs)).
    { rewrite Hcalls. apply Forall_forall. intros a Ha.
      apply in_map_iff in Ha. destruct Ha as (l & <- & _). eauto. }
    destruct (fst loop) as [e|[]];
      cbn [fst snd self trace];
      (erewrite since_app
         by (cbn [trace]; rewrite <- ?app_assoc; reflexivity));
      unfold api_calls; rewrite !flat_map_app; simpl;
      rewrite ?app_nil_r; exact Hall.
  - intros _ Hfilter. rewrite Hfilter.
    cbn [self trace fst snd set_indices with_indices index_list indices
         client count].
    api_loop E (il_client ilo)
      (fun l => PutSettings (to_csv E l) zero_body).
    cbn [self trace] in Hrun. rewrite Hrun. clearbody loop.
    destruct (fst loop) as [e|[]] eqn:Hres; cbn [fst snd self trace].
    + right.
      destruct (Hbad e eq_refl) as (before & l & rest & Hsplit & Hsteps).
      exists e, before, l, rest. split; [reflexivity|].
      split; [exact Hsplit|].
      erewrite since_app
        by (cbn [trace]; rewrite <- ?app_assoc; reflexivity).
      rewrite !steps_app, Hsteps. simpl. rewrite ?app_nil_r. reflexivity.
    + left. split; [reflexivity|].
      erewrite since_app
        by (cbn [trace]; rewrite <- ?app_assoc; reflexivity).
      rewrite !steps_app, (Hok eq_refl). simpl. rewrite ?app_nil_r.
      reflexivity.
Qed.

End ReplicasFacts.

(** ** Alias *)
Module AliasFacts.
Import Alias Outcome.

(** C5, as the code has it.  With zero accumulated operations [body]
    raises ActionError; [do_action] evaluates [body] inside its [try], so
    what leaves [do_action] is the uniform FailedExecution whose cause is
    that ActionError (or the AttributeError of an unbound client, which
    comes first); no call reaches the cluster and the object is
    unchanged. *)
Theorem empty_update_is_an_execution_failure (E : Env) (w : world t) :
  actions (self w) = [] ->
  fst (body w) = inl no_operations
  /\ fst (do_action E w)
     = inl (failed match client (self w) with
                   | Some _ => no_operations
                   | None => unbound_client
                   end)
  /\ calls (since w (snd (do_action E w))) = []
  /\ self (snd (do_action E w)) = self w.
Proof.
  intros Hnone.
  cbv [body do_action bind get_self try_except report_failure log emit
       raise ret api ask].
  simpl. rewrite Hnone.
  destruct (client (self w)); simpl; rewrite ?Hnone; simpl.
  all: repeat split; try reflexivity.
  all: read_since; reflexivity.
Qed.

(** C5 as stated fails: on an alias with no operations [do_action] does
    not raise the distinguished ActionError but the uniform
    FailedExecution. *)
Lemma empty_update_not_distinguished :
  let w := World {| alias := PStr "current"; actions := [];
                    client := Some 1 |} [] in
  exists e,
    fst (do_action Scenario.quiet w) = inl e
    /\ exn_cls e = FailedExecution
    /\ exn_cls e <> ActionError.
Proof.
  eexists. split; [reflexivity|]. split; [reflexivity|discriminate].
Qed.

Lemma accumulate_loop (mk : string -> pyval -> alias_op)
    (template : string) (l : list string) :
  forall w : world t,
    for_each l
      (fun index =>
         s <- get_self ;;
         log loggit Debug template [AStr index; AVal (alias s)] ;;
         put_self (append (mk index (alias s)) s)) w
    = (inr tt,
       World (accumulated mk l (self w))
         (trace w
          ++ map (fun i =>
                    EvLog loggit Debug template
                      [AStr i; AVal (alias (self w))]) l)).
Proof.
  induction l as [|i l IH]; intros [s tr].
  - cbv [for_each ret accumulated]. simpl. rewrite !app_nil_r.
    destruct s; reflexivity.
  - simpl for_each. unfold bind at 1.
    cbv [bind get_self log emit put_self]. simpl.
    rewrite IH. simpl. unfold accumulated, append. simpl.
    rewrite <- !app_assoc. reflexivity.
Qed.

Lemma calls_of_logs {X} (f : X -> event) (l : list X) :
  (forall x, call_of (f x) = []) -> calls (map f l) = [].
Proof.
  intros Hf. induction l as [|x l IH]; [reflexivity|].
  unfold calls in *. simpl. now rewrite Hf, IH.
Qed.

Lemma add_run (ilo : IndexList) (w : world t) :
  indices ilo <> [] ->
  add (AnIndexList ilo) w
  = (inr tt,
     World (accumulated OpAdd (indices ilo) (bound ilo (self w)))
       (trace w
        ++ map (fun i =>
                  EvLog loggit Debug "Adding index {0} to alias {1}"
                    [AStr i; AVal (alias (self w))]) (indices ilo))).
Proof.
  intros Hne. unfold add, verify_index_list, working_list.
  unfold bind at 1. unfold ret at 1. unfold bind at 1, get_self at 1.
  unfold bind at 1, bound.
  destruct w as [s tr]. simpl self. simpl trace.
  destruct (indices ilo) as [|i l] eqn:Hl; [contradiction|].
  cbn [self trace].
  destruct (client s) eqn:Hc; [unfold ret at 1|unfold put_self at 1];
    cbn [self trace]; unfold bind at 1, empty_list_check;
    unfold ret at 1; rewrite accumulate_loop; reflexivity.
Qed.

Lemma remove_run (ilo : IndexList) (w : world t) :
  indices ilo <> [] ->
  remove (AnIndexList ilo) w
  = (inr tt,
     World (accumulated OpRemove (indices ilo) (bound ilo (self w)))
       (trace w
        ++ map (fun i =>
                  EvLog loggit Debug "Removing index {0} from alias {1}"
                    [AStr i; AVal (alias (self w))]) (indices ilo))).
Proof.
  intros Hne. unfold remove, verify_index_list, working_list.
  unfold bind at 1. unfold ret at 1. unfold bind at 1, get_self at 1.
  unfold bind at 1, bound.
  destruct w as [s tr]. simpl self. simpl trace.
  destruct (indices ilo) as [|i l] eqn:Hl; [contradiction|].
  cbn [self trace].
  destruct (client s) eqn:Hc; [unfold ret at 1|unfold put_self at 1];
    cbn [self trace]; unfold bind at 1, empty_list_check;
    unfold ret at 1; rewrite accumulate_loop; reflexivity.
Qed.

Lemma do_action_run (E : Env) (c : client_ref) (w : world t) :
  actions (self w) <> [] -> client (self w) = Some c ->
  exists r evs answer,
    do_action E w = (r, World (self w) (trace w ++ evs))
    /\ calls evs = [Api (UpdateAliases (actions (self w)))]
    /\ In (EvCall c (Api (UpdateAliases (actions (self w)))) answer) evs.
Proof.
  intros Hacts Hc.
  cbv [do_action body bind get_self try_except report_failure log emit
       raise ret api ask].
  simpl. rewrite Hc.
  destruct (actions (self w)) as [|op ops] eqn:Ha; [contradiction|].
  simpl. rewrite Ha.
  match goal with
  | |- context [es_api E ?tr c ?a] => destruct (es_api E tr c a) as [e|[]]
  end; simpl.
  - do 3 eexists. split.
    + rewrite <- !app_assoc. simpl. reflexivity.
    + split; [reflexivity|]. right. right. left. reflexivity.
  - do 3 eexists. split.
    + rewrite <- !app_assoc. simpl. reflexivity.
    + split; [reflexivity|]. right. right. left. reflexivity.
Qed.

(** C6.  For non-empty index collections A and B, [add(A)], then
    [remove(B)], then [do_action] hands the cluster exactly one call: an
    update-aliases request whose body is what was accumulated before,
    followed by one add operation per index of A in A's order, followed
    by one remove operation per index of B in B's order; it goes to the
    client the alias is bound to (its own, else A's). *)
Theorem add_remove_execute_is_one_request (E : Env) (A B : IndexList)
    (w : world t) :
  indices A <> [] -> indices B <> [] ->
  let run :=
    (add (AnIndexList A) ;; remove (AnIndexList B) ;; do_action E) w in
  let request :=
    UpdateAliases
      (actions (self w)
       ++ map (fun i => OpAdd i (alias (self w))) (indices A)
       ++ map (fun i => OpRemove i (alias (self w))) (indices B)) in
  calls (since w (snd run)) = [Api request]
  /\ exists answer,
       In (EvCall (bound_client A (self w)) (Api request) answer)
          (since w (snd run)).
Proof.
  intros HA HB run request. subst run request.
  unfold bind. rewrite (add_run A w HA).
  rewrite (remove_run B _ HB). simpl self. simpl trace.
  assert (Hacc :
    actions
      (accumulated OpRemove (indices B)
         (bound B (accumulated OpAdd (indices A) (bound A (self w)))))
    = actions (self w)
      ++ map (fun i => OpAdd i (alias (self w))) (indices A)
      ++ map (fun i => OpRemove i (alias (self w))) (indices B)).
  { unfold accumulated, bound, bind_client.
    destruct w as [[al acts [c|]] tr]; simpl; now rewrite <- ?app_assoc. }
  match goal with
  | |- context [do_action E ?w1] =>
      destruct (do_action_run E (bound_client A (self w)) w1)
        as (r & evs & answer & Hrun & Hcalls & Hin)
  end.
  - simpl self. rewrite Hacc. destruct (indices A); [contradiction|].
    intros Habs. apply app_eq_nil in Habs as [_ Habs]. discriminate.
  - clear. destruct w as [[al acts [c|]] tr]; reflexivity.
  - rewrite Hrun. simpl fst. simpl snd.
    simpl self in Hcalls, Hin. rewrite Hacc in Hcalls, Hin.
    erewrite since_app
      by (simpl; rewrite <- !app_assoc; reflexivity).
    split.
    + unfold calls in *. rewrite !flat_map_app.
      match goal with
      | |- context [flat_map call_of (map ?f (indices A))] =>
          fold (calls (map f (indices A)));
          rewrite (calls_of_logs f) by reflexivity
      end.
      match goal with
      | |- context [flat_map call_of (map ?f (indices B))] =>
          fold (calls (map f (indices B)));
          rewrite (calls_of_logs f) by reflexivity
      end.
      simpl. exact Hcalls.
    + exists answer. apply in_or_app. right. apply in_or_app. right.
      exact Hin.
Qed.

End AliasFacts.

(** ** The empty-collection guard *)
Module GuardFacts.
Import Outcome.

(** Allocation and Close filter first and check afterwards: when the
    closed-index filter keeps nothing, they raise before any call. *)
Lemma allocation_guard_after_filter (E : Env) (w : world Allocation.t) :
  (forall t, ilo_filter_closed E t (indices (Allocation.index_list (self w)))
             = inr []) ->
  fst (Allocation.do_action E w) = inl empty_collection
  /\ calls (since w (snd (Allocation.do_action E w))) = [].
Proof.
  intros Hfilter.
  cbv [Allocation.do_action bind get_self log emit run_filter put_self
       empty_list_check raise ret].
  simpl. rewrite Hfilter. simpl.
  split; [reflexivity|]. read_since. reflexivity.
Qed.

Lemma close_guard_after_filter (E : Env) (w : world Close.t) :
  (forall t, ilo_filter_closed E t (indices (Close.index_list (self w)))
             = inr []) ->
  fst (Close.do_action E w) = inl empty_collection
  /\ calls (since w (snd (Close.do_action E w))) = [].
Proof.
  intros Hfilter.
  cbv [Close.do_action bind get_self log emit run_filter put_self
       empty_list_check raise ret].
  simpl. rewrite Hfilter. simpl.
  split; [reflexivity|]. read_since. reflexivity.
Qed.

(** C3, as the code has it.  On an empty collection, Open,
    DeleteIndices, Replicas, ForceMerge and DeleteSnapshots raise
    EmptyCollectionError as their first step and leave the world exactly
    as it was; Allocation and Close run the closed-index filter first
    and, the filter keeping an empty collection empty, raise
    EmptyCollectionError with no call handed to the cluster; Alias
    applies the guard in [add] and [remove], which raise
    EmptyCollectionError without a call and without accumulating an
    operation. *)
Theorem guard_on_empty_collection (E : Env)
    (wo : world Open.t) (wd : world DeleteIndices.t)
    (wr : world Replicas.t) (wf : world ForceMerge.t)
    (ws : world DeleteSnapshots.t) (wa : world Allocation.t)
    (wc : world Close.t) (wl : world Alias.t) (ilo : IndexList) :
  indices (Open.index_list (self wo)) = [] ->
  indices (DeleteIndices.index_list (self wd)) = [] ->
  indices (Replicas.index_list (self wr)) = [] ->
  indices (ForceMerge.index_list (self wf)) = [] ->
  snapshots (DeleteSnapshots.snapshot_list (self ws)) = [] ->
  indices (Allocation.index_list (self wa)) = [] ->
  indices (Close.index_list (self wc)) = [] ->
  indices ilo = [] ->
  (forall t, ilo_filter_closed E t [] = inr []) ->
  Open.do_action E wo = (inl empty_collection, wo)
  /\ DeleteIndices.do_action E wd = (inl empty_collection, wd)
  /\ Replicas.do_action E wr = (inl empty_collection, wr)
  /\ ForceMerge.do_action E wf = (inl empty_collection, wf)
  /\ DeleteSnapshots.do_action E ws = (inl empty_collection, ws)
  /\ (fst (Allocation.do_action E wa) = inl empty_collection
      /\ calls (since wa (snd (Allocation.do_action E wa))) = [])
  /\ (fst (Close.do_action E wc) = inl empty_collection
      /\ calls (since wc (snd (Close.do_action E wc))) = [])
  /\ (fst (Alias.add (AnIndexList ilo) wl) = inl empty_collection
      /\ trace (snd (Alias.add (AnIndexList ilo) wl)) = trace wl
      /\ Alias.actions (self (snd (Alias.add (AnIndexList ilo) wl)))
         = Alias.actions (self wl))
  /\ (fst (Alias.remove (AnIndexList ilo) wl) = inl empty_collection
      /\ trace (snd (Alias.remove (AnIndexList ilo) wl)) = trace wl
      /\ Alias.actions (self (snd (Alias.remove (AnIndexList ilo) wl)))
         = Alias.actions (self wl)).
Proof.
  intros Ho Hd Hr Hf Hs Ha Hc Hl Hfilter.
  repeat split.
  - cbv [Open.do_action bind get_self]. rewrite Ho. reflexivity.
  - cbv [DeleteIndices.do_action bind get_self]. rewrite Hd. reflexivity.
  - cbv [Replicas.do_action bind get_self]. rewrite Hr. reflexivity.
  - cbv [ForceMerge.do_action bind get_self]. rewrite Hf. reflexivity.
  - cbv [DeleteSnapshots.do_action bind get_self]. rewrite Hs.
    reflexivity.
  - apply allocation_guard_after_filter. rewrite Ha. exact Hfilter.
  - apply allocation_guard_after_filter. rewrite Ha. exact Hfilter.
  - apply close_guard_after_filter. rewrite Hc. exact Hfilter.
  - apply close_guard_after_filter. rewrite Hc. exact Hfilter.
  - cbv [Alias.add verify_index_list bind ret get_self]. rewrite Hl.
    destruct (Alias.client (self wl)); reflexivity.
  - cbv [Alias.add verify_index_list bind ret get_self]. rewrite Hl.
    destruct (Alias.client (self wl)); reflexivity.
  - cbv [Alias.add verify_index_list bind ret get_self]. rewrite Hl.
    destruct (Alias.client (self wl)); reflexivity.
  - cbv [Alias.remove verify_index_list bind ret get_self]. rewrite Hl.
    destruct (Alias.client (self wl)); reflexivity.
  - cbv [Alias.remove verify_index_list bind ret get_self]. rewrite Hl.
    destruct (Alias.client (self wl)); reflexivity.
  - cbv [Alias.remove verify_index_list bind ret get_self]. rewrite Hl.
    destruct (Alias.client (self wl)); reflexivity.
Qed.

(** C3 as stated fails.  An alias whose [add] was refused for an empty
    collection has nothing accumulated, and its [do_action] raises
    FailedExecution, not EmptyCollectionError.  A Snapshot constructed
    on an empty collection has no guard at all: its [do_action] asks the
    cluster to create the snapshot and returns normally. *)
Lemma execute_on_empty_not_guarded_everywhere :
  (let fresh := {| Alias.alias := PStr "current"; Alias.actions := [];
                   Alias.client := None |} in
   let refused :=
     Alias.add (AnIndexList Scenario.ilo_empty) (World fresh []) in
   fst refused = inl empty_collection
   /\ exists e,
        fst (Alias.do_action Scenario.quiet (snd refused)) = inl e
        /\ exn_cls e = FailedExecution
        /\ exn_cls e <> EmptyCollectionError)
  /\ (exists snap w,
        Snapshot.init Scenario.quiet (AnIndexList Scenario.ilo_empty)
          (PStr "backups") (PStr "nightly") false true false true false
          (World tt [])
        = (inr snap, w)
        /\ fst (Snapshot.do_action Scenario.quiet (World snap (trace w)))
           = inr tt
        /\ api_calls
             (since (World snap (trace w))
                (snd (Snapshot.do_action Scenario.quiet
                        (World snap (trace w)))))
           = [SnapshotCreate (PStr "backups") "nightly" "" true]).
Proof.
  split.
  - split; [reflexivity|].
    eexists. split; [reflexivity|]. split; [reflexivity|discriminate].
  - do 2 eexists. split; [reflexivity|]. split; reflexivity.
Qed.

(** C4 is broken by Replicas and ForceMerge, which check for an empty
    collection before they filter and not again afterwards.  Replicas
    on two closed indices and ForceMerge on one already merged index
    pass the guard, lose every identifier to the filter, and return
    normally instead of raising. *)
Lemma guard_not_reapplied_after_filter :
  (let w := World {| Replicas.client := 1;
                     Replicas.index_list := Scenario.ilo_two;
                     Replicas.count := PInt 2 |} [] in
   let out := Replicas.do_action Scenario.all_closed w in
   fst out = inr tt
   /\ indices (Replicas.index_list (self (snd out))) = [])
  /\ (let w := World {| ForceMerge.client := 1;
                        ForceMerge.index_list := Scenario.ilo_one;
                        ForceMerge.max_num_segments := PInt 1;
                        ForceMerge.delay := 0 |} [] in
      let out := ForceMerge.do_action Scenario.all_merged w in
      fst out = inr tt
      /\ indices (ForceMerge.index_list (self (snd out))) = []).
Proof.
  split; split; reflexivity.
Qed.

End GuardFacts.

(** ** DeleteSnapshots *)
Module DeleteSnapshotsFacts.
Import DeleteSnapshots Outcome.

Section WithEnv.
Variable E : Env.











End WithEnv.
End DeleteSnapshotsFacts.

(** ** DeleteIndices *)
Module DeleteIndicesFacts.
Import DeleteIndices DeleteRetry.

Lemma log_loop {O X} (logger : string) (lvl : level) (template : string)
    (args : X -> list fmt_arg) (l : list X) :
  forall w : world O,
    for_each l (fun x => log logger lvl template (args x)) w
    = (inr tt,
       World (self w)
         (trace w ++ map (fun x => EvLog logger lvl template (args x)) l)).
Proof.
  induction l as [|x l IH]; intros w.
  - simpl. unfold ret. rewrite app_nil_r. now destruct w.
  - simpl for_each. unfold bind at 1. unfold log at 1, emit.
    rewrite IH. simpl. now rewrite <- app_assoc.
Qed.

Lemma api_calls_of_logs {X} (f : X -> event) (l : list X) :
  (forall x, api_of (f x) = []) -> api_calls (map f l) = [].
Proof.
  intros Hf. induction l as [|x l IH]; [reflexivity|].
  unfold api_calls in *. simpl. now rewrite Hf, IH.
Qed.

Lemma verify_result_run (result : list string) (count : nat)
    (w : world t) :
  verify_result result count w
  = (inr match result with [] => true | _ :: _ => false end,
     after_logs w (verify_logs result count)).
Proof.
  unfold verify_result, after_logs, verify_logs.
  destruct result as [|i result].
  - reflexivity.
  - change (0 <? List.length (i :: result))%nat with true. cbv iota.
    unfold bind at 1. unfold log at 1, emit.
    unfold bind at 1. rewrite log_loop. simpl.
    unfold ret. now rewrite <- app_assoc.
Qed.

Lemma api_calls_verify_logs (result : list string) (count : nat) :
  api_calls (verify_logs result count) = [].
Proof.
  destruct result as [|i result]; [reflexivity|].
  unfold verify_logs. change (api_calls (?e :: ?l)) with (api_calls l).
  unfold api_calls. simpl.
  now apply (api_calls_of_logs (fun idx => EvLog loggit Error "---{0}" [AStr idx])).
Qed.

Section WithEnv.
Variable E : Env.

(** The re-query leaves [self] alone, makes no call directly on the
    client, keeps only identifiers of the working list, and can only
    raise what a query raised. *)
Lemma still_present_run (c : client_ref) (l : list string) :
  forall w : world t, exists evs,
    still_present E c l w
    = (fst (still_present E c l w), World (self w) (trace w ++ evs))
    /\ api_calls evs = []
    /\ (forall e, fst (still_present E c l w) = inl e ->
        In (EvCall c GetIndices (inl e)) evs)
    /\ (forall r, fst (still_present E c l w) = inr r -> incl r l).
Proof.
  induction l as [|i l IH]; intros w.
  - exists []. simpl. unfold ret. simpl. rewrite app_nil_r.
    destruct w. repeat split; auto; try discriminate.
    intros r Hr. injection Hr as <-. apply incl_refl.
  - simpl still_present. cbv [bind get_indices ask].
    destruct (es_get_indices E (trace w) c) as [e|present] eqn:Hq.
    + eexists. simpl. split; [reflexivity|].
      repeat split; try discriminate.
      intros e' He'. injection He' as <-. now left.
    + simpl self. simpl trace.
      match goal with
      | |- context [still_present E c l ?w1] =>
          destruct (IH w1) as (evs & Hrun & Hapi & Hexn & Hsub);
          set (go := still_present E c l w1) in *
      end.
      simpl self in Hrun. simpl trace in Hrun.
      exists (EvCall c GetIndices (inr (VNames present)) :: evs).
      rewrite Hrun.
      destruct (fst go) as [e|kept] eqn:Hres; simpl.
      * rewrite <- app_assoc. split; [reflexivity|].
        split; [exact Hapi|]. split; [|discriminate].
        intros e' He'. injection He' as <-. right. now apply Hexn.
      * rewrite <- app_assoc. split; [reflexivity|].
        split; [exact Hapi|]. split; [discriminate|].
        intros r Hr. injection Hr as <-.
        specialize (Hsub kept eq_refl).
        destruct (existsb (String.eqb i) present).
        -- intros x [<-|Hx]; [now left|right; now apply Hsub].
        -- intros x Hx. right. now apply Hsub.
Qed.

(** An attempt makes exactly one delete call, on its working list. *)
Lemma attempt_run (s : t) (l : list string) (w : world t) :
  exists r evs,
    attempt E s l w = (r, World (self w) (trace w ++ evs))
    /\ api_calls evs = [delete_of E s l]
    /\ (forall e, r = inl e ->
        exists q, In (EvCall (client s) q (inl e)) evs)
    /\ (forall remaining, r = inr remaining -> incl remaining l).
Proof.
  unfold attempt. unfold bind at 1. rewrite log_loop.
  unfold bind at 1. cbv [api ask]. simpl self. simpl trace.
  assert (Hlogs : api_calls (map (fun i => EvLog loggit Info
                                "---deleting index {0}" [AStr i]) l) = []).
  { now apply api_calls_of_logs. }
  destruct (es_api E _ (client s) _) as [e|[]] eqn:Hdel.
  - do 2 eexists. simpl. rewrite <- app_assoc. split; [reflexivity|].
    split.
    + unfold api_calls in *. rewrite flat_map_app, Hlogs. reflexivity.
    + split; [|discriminate].
      intros e' He'. injection He' as <-. eexists.
      apply in_or_app. right. now left.
  - match goal with
    | |- context [still_present E ?c l ?w1] =>
        destruct (still_present_run c l w1)
          as (evs & Hrun & Hapi & Hexn & Hsub);
        set (go := still_present E c l w1) in *
    end.
    simpl self in Hrun. simpl trace in Hrun.
    exists (fst go). eexists. rewrite Hrun at 1.
    split; [rewrite <- !app_assoc; reflexivity|].
    split.
    + unfold api_calls in *. rewrite !flat_map_app, Hlogs.
      simpl. rewrite Hapi. reflexivity.
    + split.
      * intros e He. exists GetIndices.
        apply in_or_app. right. right. now apply Hexn.
      * exact Hsub.
Qed.

(** One pass of the [for count in range(1, 4)] loop. *)
Lemma loop_pass (count : nat) (counts : list nat) (l : list string)
    (result : option (list string)) (w : world t) :
  chunk_loop_from E (count :: counts) l result w
  = match attempt E (self w) l w with
    | (inl e, w1) => (inl e, w1)
    | (inr [], w1) => (inr tt, after_logs w1 (verify_logs [] count))
    | (inr remaining, w1) =>
        chunk_loop_from E counts remaining (Some remaining)
          (after_logs w1 (verify_logs remaining count))
    end.
Proof.
  simpl chunk_loop_from. unfold attempt.
  cbv [bind get_self].
  destruct (for_each l _ w) as [[e|u] w0]; [reflexivity|].
  destruct (api E _ _ w0) as [[e|u'] w1]; [reflexivity|].
  destruct (still_present E _ l w1) as [[e|remaining] w2]; [reflexivity|].
  rewrite verify_result_run.
  destruct remaining; reflexivity.
Qed.

Lemma api_calls_app (a b : list event) :
  api_calls (a ++ b) = api_calls a ++ api_calls b.
Proof. apply flat_map_app. Qed.

Lemma self_after_logs (w : world t) (logs : list event) :
  self (after_logs w logs) = self w.
Proof. reflexivity. Qed.

Lemma gave_up_run (remaining : list string) (w : world t) :
  chunk_loop_from E [] remaining (Some remaining) w
  = (inr tt, after_logs w [gave_up remaining]).
Proof. reflexivity. Qed.

Lemma after_after (w : world t) (a b : list event) :
  after_logs (after_logs w a) b = after_logs w (a ++ b).
Proof. unfold after_logs. simpl. now rewrite app_assoc. Qed.

(** The loop of [__chunk_loop] does what [retries] says. *)
Lemma chunk_loop_refines (chunk : list string) (w : world t) :
  retries E (self w) 1 chunk w (chunk_loop E chunk w).
Proof.
  unfold chunk_loop. change (py_range 1 4) with [1; 2; 3].
  rewrite loop_pass.
  destruct (attempt E (self w) chunk w) as [[e|[|i1 r1]] w1] eqn:H1.
  - apply cluster_raised; [lia|exact H1].
  - apply converged; [lia|exact H1].
  - apply (retried E (self w) 1 chunk w (i1 :: r1) w1);
      [lia|exact H1|discriminate|].
    rewrite loop_pass, self_after_logs.
    destruct (attempt E (self w1) (i1 :: r1) _)
      as [[e|[|i2 r2]] w2] eqn:H2.
    + assert (Hs : self w1 = self w).
      { destruct (attempt_run (self w) chunk w) as (r & evs & Hr & _).
        rewrite H1 in Hr. now injection Hr as _ ->. }
      rewrite Hs in H2. apply cluster_raised; [lia|exact H2].
    + assert (Hs : self w1 = self w).
      { destruct (attempt_run (self w) chunk w) as (r & evs & Hr & _).
        rewrite H1 in Hr. now injection Hr as _ ->. }
      rewrite Hs in H2. apply converged; [lia|exact H2].
    + assert (Hs : self w1 = self w).
      { destruct (attempt_run (self w) chunk w) as (r & evs & Hr & _).
        rewrite H1 in Hr. now injection Hr as _ ->. }
      rewrite Hs in H2.
      apply (retried E (self w) 2 (i1 :: r1) _ (i2 :: r2) w2);
        [lia|exact H2|discriminate|].
      rewrite loop_pass, self_after_logs.
      assert (Hs2 : self w2 = self w).
      { destruct (attempt_run (self w) (i1 :: r1)
                    (after_logs w1 (verify_logs (i1 :: r1) 1)))
          as (r & evs & Hr & _).
        rewrite H2 in Hr. injection Hr as _ ->. exact Hs. }
      rewrite Hs2.
      destruct (attempt E (self w) (i2 :: r2) _)
        as [[e|[|i3 r3]] w3] eqn:H3.
      * apply cluster_raised; [lia|exact H3].
      * apply converged; [lia|exact H3].
      * rewrite gave_up_run, after_after.
        apply exhausted; [exact H3|discriminate].
Qed.

(** What a run of [retries] hands to the cluster: one delete call per
    attempt, the first on the working list, every later one on a
    non-empty part of it, and never more than the attempts that are
    left; and an exception can only be one a cluster call raised. *)
Lemma retries_calls (s : t) (k : nat) (l : list string) (w : world t)
    (out : (exn + unit) * world t) :
  retries E s k l w out ->
  exists evs later,
    snd out = World (self w) (trace w ++ evs)
    /\ api_calls evs = map (delete_of E s) (l :: later)
    /\ List.length later <= 3 - k
    /\ Forall (fun x => x <> [] /\ incl x l) later
    /\ (forall e, fst out = inl e ->
        exists q, In (EvCall (client s) q (inl e)) evs).
Proof.
  induction 1 as [k l w e w1 Hk Hatt
                 |k l w w1 Hk Hatt
                 |k l w remaining w1 out Hk Hatt Hne Hrest IH
                 |l w remaining w1 Hatt Hne].
  - destruct (attempt_run s l w) as (r & evs & Hr & Hapi & Hexn & _).
    rewrite Hatt in Hr. injection Hr as <- ->.
    exists evs, []. simpl. repeat split; auto; try lia.
    intros e' He'. injection He' as <-. now apply Hexn.
  - destruct (attempt_run s l w) as (r & evs & Hr & Hapi & Hexn & _).
    rewrite Hatt in Hr. injection Hr as <- ->.
    exists (evs ++ verify_logs [] k), [].
    split; [unfold after_logs; simpl; now rewrite <- ?app_assoc|].
    rewrite api_calls_app, Hapi. simpl.
    repeat split; auto; try lia. discriminate.
  - destruct (attempt_run s l w) as (r & evs & Hr & Hapi & _ & Hsub).
    rewrite Hatt in Hr. injection Hr as <- ->.
    destruct IH as (evs' & later & Hout & Hapi' & Hlen & Hall & Hexn').
    exists (evs ++ verify_logs remaining k ++ evs'), (remaining :: later).
    split.
    { rewrite Hout. unfold after_logs. simpl. now rewrite <- ?app_assoc. }
    split.
    { rewrite !api_calls_app, Hapi, api_calls_verify_logs, Hapi'.
      reflexivity. }
    split.
    { change (List.length (remaining :: later))
        with (S (List.length later)). lia. }
    split.
    { constructor.
      - split; [exact Hne|now apply Hsub].
      - eapply Forall_impl; [|exact Hall].
        intros x [Hx Hin]. split; [exact Hx|].
        intros y Hy. apply (Hsub remaining eq_refl). now apply Hin. }
    intros e He. destruct (Hexn' e He) as (q & Hq).
    exists q. apply in_or_app. right. apply in_or_app. now right.
  - destruct (attempt_run s l w) as (r & evs & Hr & Hapi & _ & _).
    rewrite Hatt in Hr. injection Hr as <- ->.
    exists (evs ++ verify_logs remaining 3 ++ [gave_up remaining]), [].
    split; [unfold after_logs; simpl; now rewrite <- ?app_assoc|].
    rewrite !api_calls_app, Hapi, api_calls_verify_logs. simpl.
    repeat split; auto; try lia. discriminate.
Qed.

Lemma attempt_shape (s : t) (l : list string) (w w1 : world t)
    (r : exn + list string) :
  attempt E s l w = (r, w1) ->
  exists evs,
    w1 = World (self w) (trace w ++ evs)
    /\ api_calls evs = [delete_of E s l].
Proof.
  intros Hatt.
  destruct (attempt_run s l w) as (r' & evs & Hr & Hapi & _).
  rewrite Hatt in Hr. injection Hr as _ ->. now exists evs.
Qed.

Ltac norm_self :=
  repeat (progress (rewrite ?self_after_logs in *; cbn [self] in * )).

Ltac read_new :=
  erewrite since_app
    by (unfold after_logs; cbn [self trace snd]; rewrite <- ?app_assoc;
        reflexivity).

(** C1.  The retry loop of DeleteIndices follows [retries]: every
    attempt is one bulk delete call followed by the re-query that
    computes the identifiers still present; an attempt that finds none
    ends the loop; otherwise the next attempt deletes only what was
    still present.  The calls made directly on the client are these
    delete calls: the first on the chunk, at most two more, each on a
    non-empty part of the chunk.  An exception leaves the loop only when
    a cluster call raised it.  A chunk that is gone after the first
    attempt costs one delete call, one that is gone after the second
    costs two, and when identifiers survive the third attempt the loop
    logs them and returns normally after three delete calls. *)
Theorem delete_retry_loop (chunk : list string) (w : world t) :
  let s := self w in
  let out := chunk_loop E chunk w in
  let new := since w (snd out) in
  retries E s 1 chunk w out
  /\ (exists later,
        api_calls new = map (delete_of E s) (chunk :: later)
        /\ List.length later <= 2
        /\ Forall (fun l => l <> [] /\ incl l chunk) later)
  /\ (forall e, fst out = inl e ->
      exists q, In (EvCall (client s) q (inl e)) new)
  /\ (forall w1,
        attempt E s chunk w = (inr [], w1) ->
        fst out = inr tt /\ api_calls new = [delete_of E s chunk])
  /\ (forall r1 w1 w2,
        attempt E s chunk w = (inr r1, w1) -> r1 <> [] ->
        attempt E s r1 (after_logs w1 (verify_logs r1 1)) = (inr [], w2) ->
        fst out = inr tt
        /\ api_calls new = [delete_of E s chunk; delete_of E s r1])
  /\ (forall r1 w1 r2 w2 r3 w3,
        attempt E s chunk w = (inr r1, w1) -> r1 <> [] ->
        attempt E s r1 (after_logs w1 (verify_logs r1 1)) = (inr r2, w2) ->
        r2 <> [] ->
        attempt E s r2 (after_logs w2 (verify_logs r2 2)) = (inr r3, w3) ->
        r3 <> [] ->
        fst out = inr tt
        /\ api_calls new
           = [delete_of E s chunk; delete_of E s r1; delete_of E s r2]
        /\ In (gave_up r3) new).
Proof.
  intros s out new. subst s out new.
  pose proof (chunk_loop_refines chunk w) as Hspec.
  destruct (retries_calls _ _ _ _ _ Hspec)
    as (evs & later & Hout & Hapi & Hlen & Hall & Hexn).
  split; [exact Hspec|].
  split.
  { exists later. rewrite Hout. rewrite (since_app w _ evs) by reflexivity.
    repeat split; auto. }
  split.
  { rewrite Hout. rewrite (since_app w _ evs) by reflexivity. exact Hexn. }
  clear Hspec evs later Hout Hapi Hlen Hall Hexn.
  unfold chunk_loop. change (py_range 1 4) with [1; 2; 3].
  rewrite loop_pass.
  split; [|split].
  - intros w1 Ha.
    destruct (attempt_shape _ _ _ _ _ Ha) as (evs1 & -> & Hapi1).
    rewrite Ha. split; [reflexivity|].
    cbn [snd]. read_new.
    rewrite api_calls_app, Hapi1. reflexivity.
  - intros r1 w1 w2 Ha Hne Hb.
    destruct (attempt_shape _ _ _ _ _ Ha) as (evs1 & -> & Hapi1).
    destruct (attempt_shape _ _ _ _ _ Hb) as (evs2 & -> & Hapi2).
    norm_self. rewrite Ha. destruct r1 as [|i1 r1]; [contradiction|].
    rewrite loop_pass. norm_self. rewrite Hb.
    split; [reflexivity|].
    cbn [snd]. read_new.
    rewrite !api_calls_app, Hapi1, Hapi2.
    rewrite (api_calls_verify_logs (i1 :: r1) 1). reflexivity.
  - intros r1 w1 r2 w2 r3 w3 Ha Hne1 Hb Hne2 Hc Hne3.
    destruct (attempt_shape _ _ _ _ _ Ha) as (evs1 & -> & Hapi1).
    destruct (attempt_shape _ _ _ _ _ Hb) as (evs2 & -> & Hapi2).
    destruct (attempt_shape _ _ _ _ _ Hc) as (evs3 & -> & Hapi3).
    norm_self. rewrite Ha. destruct r1 as [|i1 r1]; [contradiction|].
    rewrite loop_pass. norm_self. rewrite Hb.
    destruct r2 as [|i2 r2]; [contradiction|].
    rewrite loop_pass. norm_self. rewrite Hc.
    destruct r3 as [|i3 r3]; [contradiction|].
    rewrite gave_up_run.
    split; [reflexivity|].
    cbn [snd]. read_new.
    split.
    + rewrite !api_calls_app, Hapi1, Hapi2, Hapi3.
      rewrite (api_calls_verify_logs (i1 :: r1) 1).
      rewrite (api_calls_verify_logs (i2 :: r2) 2).
      rewrite (api_calls_verify_logs (i3 :: r3) 3).
      reflexivity.
    + repeat (apply in_or_app; right). now left.
Qed.

End WithEnv.
End DeleteIndicesFacts.

(** ** The statements at work on the scenarios *)
Module Witnesses.
Import Outcome DeleteRetry.

(** Five indices, a size bound of 20: the chunks hold three and two
    identifiers and concatenate to the input. *)
Lemma chunk_index_list_partitions_witness :
  1 <= 3
  /\ List.concat (Chunking.chunk_index_list 3 20 Scenario.five)
     = Scenario.five
  /\ Forall (Chunking.chunk_ok 3 20)
       (Chunking.chunk_index_list 3 20 Scenario.five).
Proof.
  assert (H : 1 <= 3) by lia.
  destruct (ChunkingFacts.chunk_index_list_partitions 3 20 Scenario.five H)
    as (Hconcat & Hok & _).
  split; [exact H|]. split; [exact Hconcat|exact Hok].
Defined.

(** Five identifiers, two of them still present after the first delete
    call and none after the second: two delete calls, the second on the
    two survivors, and a normal return. *)
Lemma delete_retry_loop_witness :
  fst (DeleteIndices.chunk_loop Scenario.slow_delete Scenario.five
         Scenario.delete_five) = inr tt
  /\ api_calls
       (since Scenario.delete_five
          (snd (DeleteIndices.chunk_loop Scenario.slow_delete Scenario.five
                  Scenario.delete_five)))
     = [delete_of Scenario.slow_delete (self Scenario.delete_five) Scenario.five;
        delete_of Scenario.slow_delete (self Scenario.delete_five)
          ["logs-4"; "logs-5"]].
Proof.
  destruct (DeleteIndicesFacts.delete_retry_loop Scenario.slow_delete
              Scenario.five Scenario.delete_five) as (_ & _ & _ & _ & H & _).
  apply (H ["logs-4"; "logs-5"]
           (snd (attempt Scenario.slow_delete (self Scenario.delete_five)
                   Scenario.five Scenario.delete_five))
           (snd (attempt Scenario.slow_delete (self Scenario.delete_five)
                   ["logs-4"; "logs-5"]
                   (after_logs
                      (snd (attempt Scenario.slow_delete (self Scenario.delete_five)
                              Scenario.five Scenario.delete_five))
                      (verify_logs ["logs-4"; "logs-5"] 1))))).
  - vm_compute. reflexivity.
  - discriminate.
  - vm_compute. reflexivity.
Defined.

Lemma running_snapshot_blocks_create_witness :
  fst (Snapshot.do_action Scenario.snapshot_running Scenario.nightly)
  = inl (Exn SnapshotInProgress "Snapshot already in progress." [])
  /\ calls
       (since Scenario.nightly
          (snd (Snapshot.do_action Scenario.snapshot_running
                  Scenario.nightly)))
     = [TestRepoFs (PStr "backups"); SnapshotRunning]
  /\ api_calls
       (since Scenario.nightly
          (snd (Snapshot.do_action Scenario.snapshot_running
                  Scenario.nightly)))
     = [].
Proof.
  destruct (SnapshotFacts.running_snapshot_blocks_create
              Scenario.snapshot_running Scenario.nightly)
    as (Hraise & Hcalls & _ & _ & Hnone & _).
  - right. reflexivity.
  - reflexivity.
  - split; [exact Hraise|]. split; [exact Hcalls|exact Hnone].
Defined.

Lemma empty_update_is_an_execution_failure_witness :
  fst (Alias.do_action Scenario.quiet Scenario.fresh_alias)
  = inl (failed no_operations)
  /\ calls (since Scenario.fresh_alias
              (snd (Alias.do_action Scenario.quiet Scenario.fresh_alias))) = [].
Proof.
  destruct (AliasFacts.empty_update_is_an_execution_failure Scenario.quiet
              Scenario.fresh_alias eq_refl) as (_ & Hfail & Hcalls & _).
  split; [exact Hfail|exact Hcalls].
Defined.

Lemma add_remove_execute_is_one_request_witness :
  calls
    (since Scenario.fresh_alias
       (snd ((Alias.add (AnIndexList Scenario.ilo_five) ;;
              Alias.remove (AnIndexList Scenario.ilo_two) ;;
              Alias.do_action Scenario.quiet)%py Scenario.fresh_alias)))
  = [Api (UpdateAliases
            (map (fun i => OpAdd i (PStr "current")) Scenario.five
             ++ map (fun i => OpRemove i (PStr "current"))
                  ["metrics-1"; "metrics-2"]))].
Proof.
  assert (HA : indices Scenario.ilo_five <> []) by discriminate.
  assert (HB : indices Scenario.ilo_two <> []) by discriminate.
  destruct (AliasFacts.add_remove_execute_is_one_request Scenario.quiet
              Scenario.ilo_five Scenario.ilo_two Scenario.fresh_alias HA HB)
    as (Hcalls & _).
  exact Hcalls.
Defined.

Lemma construction_fails_before_any_call_witness :
  (exists e,
     Allocation.init (AnIndexList Scenario.ilo_five) (PStr "rack")
       (PStr "r1") (PStr "invalid") (World tt [])
     = (inl e, World tt [])
     /\ exn_cls e = ValueError)
  /\ (exists e,
        ForceMerge.init (AnIndexList Scenario.ilo_five) PNone 0%Z
          (World tt [])
        = (inl e, World tt [])
        /\ exn_cls e = MissingArgument).
Proof.
  destruct (ConstructorFacts.construction_fails_before_any_call
              (AnIndexList Scenario.ilo_five) (PStr "rack") (PStr "r1")
              (PStr "invalid") PNone 0%Z (World tt [])) as (Ha & Hf).
  split.
  - apply Ha. right. right. reflexivity.
  - apply Hf. reflexivity.
Defined.


Lemma zero_count_is_a_count_witness :
  let w := World {| Replicas.client := 1;
                    Replicas.index_list := Scenario.ilo_five;
                    Replicas.count := PInt 0 |} [] in
  fst (Replicas.do_action Scenario.quiet w) = inr tt
  /\ steps (since w (snd (Replicas.do_action Scenario.quiet w)))
     = [did 1 (PutSettings "logs-1,logs-2,logs-3,logs-4,logs-5"
                 "number_of_replicas=0")].
Proof.
  intros w.
  destruct (ReplicasFacts.zero_count_is_a_count Scenario.quiet
              Scenario.ilo_five Scenario.five [])
    as (_ & _ & _ & Hsteps).
  destruct Hsteps as [[Hok Hsteps]|(e & before & l & rest & Hraise & _)].
  - discriminate.
  - reflexivity.
  - split; [exact Hok|exact Hsteps].
  - vm_compute in Hraise. discriminate Hraise.
Defined.

Lemma guard_on_empty_collection_witness :
  Open.do_action Scenario.quiet
    (Scenario.on_empty {| Open.client := 1; Open.index_list := Scenario.ilo_empty |})
  = (inl empty_collection,
     Scenario.on_empty {| Open.client := 1; Open.index_list := Scenario.ilo_empty |})
  /\ fst (Alias.add (AnIndexList Scenario.ilo_empty) Scenario.fresh_alias)
     = inl empty_collection.
Proof.
  destruct (GuardFacts.guard_on_empty_collection Scenario.quiet
    (Scenario.on_empty {| Open.client := 1; Open.index_list := Scenario.ilo_empty |})
    (Scenario.on_empty {| DeleteIndices.index_list := Scenario.ilo_empty;
                 DeleteIndices.client := 1;
                 DeleteIndices.master_timeout := "30s" |})
    (Scenario.on_empty {| Replicas.client := 1;
                 Replicas.index_list := Scenario.ilo_empty;
                 Replicas.count := PInt 1 |})
    (Scenario.on_empty {| ForceMerge.client := 1;
                 ForceMerge.index_list := Scenario.ilo_empty;
                 ForceMerge.max_num_segments := PInt 1;
                 ForceMerge.delay := 0 |})
    (Scenario.on_empty {| DeleteSnapshots.client := 1;
                 DeleteSnapshots.retry_interval := 120;
                 DeleteSnapshots.retry_count := 3;
                 DeleteSnapshots.snapshot_list :=
                   {| sl_client := 1; sl_repository := "backups";
                      snapshots := [] |};
                 DeleteSnapshots.repository := "backups" |})
    (Scenario.on_empty {| Allocation.index_list := Scenario.ilo_empty;
                 Allocation.client := 1;
                 Allocation.body := "index.routing.allocation.require.a=b" |})
    (Scenario.on_empty {| Close.index_list := Scenario.ilo_empty;
                 Close.client := 1 |})
    Scenario.fresh_alias Scenario.ilo_empty
    eq_refl eq_refl eq_refl eq_refl eq_refl eq_refl eq_refl eq_refl
    (fun _ => eq_refl))
    as (Hopen & _ & _ & _ & _ & _ & _ & (Hadd & _) & _).
  split; [exact Hopen|exact Hadd].
Defined.

End Witnesses.

(** * Further properties of the actions *)

(** ** Open *)
Module OpenFacts.
Import Open Outcome Protocol.

(** X1.  On a non-empty collection [Open.do_action] leaves the object as
    it is and asks the cluster to open the chunks of the collection one
    by one, in order, and nothing else.  When every call returns it
    returns normally after the last chunk; when a call raises it stops
    there, with no call for the chunks behind it, and raises the uniform
    FailedExecution whose cause is what the call raised. *)
Theorem open_chunk_by_chunk (E : Env) (w : world t) :
  indices (index_list (self w)) <> [] ->
  let s := self w in
  let chunks := chunk_index_list E (indices (index_list s)) in
  let out := do_action E w in
  let new := since w (snd out) in
  self (snd out) = s
  /\ ((fst out = inr tt
       /\ steps new = map (open_chunk E (client s)) chunks)
      \/ exists e before l rest,
           fst out = inl (failed e)
           /\ chunks = before ++ l :: rest
           /\ steps new
              = map (open_chunk E (client s)) before
                ++ [did_raise (client s) (OpenIndex (to_csv E l)) e]).
Proof.
  intros Hne s chunks out new. subst s chunks out new.
  unfold do_action.
  cbv [bind get_self empty_list_check ret log emit try_except
       report_failure raise].
  destruct (indices (index_list (self w))) as [|i0 rest0] eqn:Hidx;
    [contradiction|].
  cbn [self trace].
  match goal with
  | |- context [for_each ?chunks ?b ?w1] =>
      destruct (api_loop_steps E (client (self w))
                  (fun l => OpenIndex (to_csv E l)) chunks w1)
        as (evs & Hrun & Hok & Hbad);
      set (loop := for_each chunks b w1) in *
  end.
  cbn [self trace] in Hrun. rewrite Hrun.
  destruct (fst loop) as [e|[]] eqn:Hres; cbn [fst snd self trace].
  - split; [reflexivity|]. right.
    destruct (Hbad e eq_refl) as (before & l & rest & Hsplit & Hsteps).
    exists e, before, l, rest. split; [reflexivity|].
    split; [exact Hsplit|].
    erewrite since_app by (cbn [trace]; rewrite <- ?app_assoc; reflexivity).
    rewrite !steps_app, Hsteps. simpl. now rewrite app_nil_r.
  - split; [reflexivity|]. left. split; [reflexivity|].
    erewrite since_app by (cbn [trace]; rewrite <- ?app_assoc; reflexivity).
    rewrite !steps_app, (Hok eq_refl). reflexivity.
Qed.

End OpenFacts.

(** ** Allocation *)
Module AllocationFacts.
Import Allocation Outcome Protocol.

(** X2.  With a key, a value and one of the three allocation types,
    constructing Allocation succeeds without touching the world and
    builds the setting [index.routing.allocation.TYPE.KEY=VALUE].  When
    the closed-index filter keeps a non-empty part of the collection,
    [do_action] narrows the collection to that part and puts exactly that
    setting on its chunks, one call per chunk in order; it stops at the
    first call that raises and raises FailedExecution with that cause. *)
Theorem allocation_puts_the_routing_setting (E : Env) (ilo : IndexList)
    (key value allocation_type : pyval) (kept : list string)
    (t0 : list event) :
  truthy key = true -> truthy value = true ->
  py_in allocation_type ["require"; "include"; "exclude"] = true ->
  (forall t', ilo_filter_closed E t' (indices ilo) = inr kept) ->
  kept <> [] ->
  let routing :=
    ("index.routing.allocation." ++ py_str allocation_type ++ "."
     ++ py_str key ++ "=" ++ py_str value)%string in
  let obj := {| index_list := ilo; client := il_client ilo;
                body := routing |} in
  let w := World obj t0 in
  let out := do_action E w in
  let new := since w (snd out) in
  let chunks := chunk_index_list E kept in
  init (AnIndexList ilo) key value allocation_type w = (inr obj, w)
  /\ indices (index_list (self (snd out))) = kept
  /\ ((fst out = inr tt
       /\ steps new = map (put_chunk E (il_client ilo) routing) chunks)
      \/ exists e before l rest,
           fst out = inl (failed e)
           /\ chunks = before ++ l :: rest
           /\ steps new
              = map (put_chunk E (il_client ilo) routing) before
                ++ [did_raise (il_client ilo)
                      (PutSettings (to_csv E l) routing) e]).
Proof.
  intros Hkey Hvalue Htype Hfilter Hkept routing obj w out new chunks.
  subst out new chunks w obj.
  split.
  { unfold init, verify_index_list, bind, ret.
    rewrite Hkey, Hvalue, Htype. reflexivity. }
  unfold do_action.
  cbv [bind get_self empty_list_check ret log emit try_except
       report_failure raise run_filter put_self].
  cbn [self trace index_list]. rewrite Hfilter.
  cbn [self trace set_indices with_indices index_list indices client body].
  destruct kept as [|k0 kept']; [contradiction|].
  cbn [self trace client body].
  api_loop E (il_client ilo) (fun l => PutSettings (to_csv E l) routing).
  cbn [self trace] in Hrun. rewrite Hrun.
  destruct (fst loop) as [e|[]] eqn:Hres;
    cbn [fst snd self trace index_list indices].
  - split; [reflexivity|]. right.
    destruct (Hbad e eq_refl) as (before & l & rest & Hsplit & Hsteps).
    exists e, before, l, rest. split; [reflexivity|].
    split; [exact Hsplit|].
    erewrite since_app by (cbn [trace]; rewrite <- ?app_assoc; reflexivity).
    rewrite !steps_app, Hsteps. simpl. now rewrite app_nil_r.
  - split; [reflexivity|]. left. split; [reflexivity|].
    erewrite since_app by (cbn [trace]; rewrite <- ?app_assoc; reflexivity).
    rewrite !steps_app, (Hok eq_refl). reflexivity.
Qed.

End AllocationFacts.

(** ** Close *)
Module CloseFacts.
Import Close Outcome Protocol.

Section WithEnv.
Variable E : Env.

(** The loop of [Close.do_action]: flush, then close, chunk by chunk. *)
Lemma close_loop_steps (c : client_ref) (chunks : list (list string))
    (w : world t) :
  exists evs,
    for_each chunks
      (fun l =>
         api E c (Flush (to_csv E l) true) ;;
         api E c (CloseIndex (to_csv E l) true)) w
    = (fst (for_each chunks
              (fun l =>
                 api E c (Flush (to_csv E l) true) ;;
                 api E c (CloseIndex (to_csv E l) true)) w),
       World (self w) (trace w ++ evs))
    /\ (fst (for_each chunks
               (fun l =>
                  api E c (Flush (to_csv E l) true) ;;
                  api E c (CloseIndex (to_csv E l) true)) w) = inr tt ->
        steps evs = flat_map (flush_then_close E c) chunks)
    /\ (forall e,
          fst (for_each chunks
                 (fun l =>
                    api E c (Flush (to_csv E l) true) ;;
                    api E c (CloseIndex (to_csv E l) true)) w) = inl e ->
          exists before l rest,
            chunks = before ++ l :: rest
            /\ (steps evs
                = flat_map (flush_then_close E c) before
                  ++ [did_raise c (flush_chunk E l) e]
                \/ steps evs
                   = flat_map (flush_then_close E c) before
                     ++ [did c (flush_chunk E l);
                         did_raise c (close_chunk E l) e])).
Proof.
  pose (inv := fun (before : list (list string)) (evs : list event) =>
                 steps evs = flat_map (flush_then_close E c) before).
  pose (broke := fun (before : list (list string)) (l : list string)
                     (e : exn) (evs : list event) =>
                   steps evs
                   = flat_map (flush_then_close E c) before
                     ++ [did_raise c (flush_chunk E l) e]
                   \/ steps evs
                      = flat_map (flush_then_close E c) before
                        ++ [did c (flush_chunk E l);
                            did_raise c (close_chunk E l) e]).
  assert (Hstep : forall before l (w0 : world t) evs0,
    inv before evs0 ->
    exists evs,
      (api E c (Flush (to_csv E l) true) ;;
       api E c (CloseIndex (to_csv E l) true)) w0
      = (fst ((api E c (Flush (to_csv E l) true) ;;
               api E c (CloseIndex (to_csv E l) true)) w0),
         World (self w0) (trace w0 ++ evs))
      /\ (fst ((api E c (Flush (to_csv E l) true) ;;
                api E c (CloseIndex (to_csv E l) true)) w0) = inr tt ->
          inv (before ++ [l]) (evs0 ++ evs))
      /\ (forall e,
            fst ((api E c (Flush (to_csv E l) true) ;;
                  api E c (CloseIndex (to_csv E l) true)) w0) = inl e ->
            broke before l e (evs0 ++ evs))).
  { intros before l w0 evs0 Hinv. unfold inv, broke in *.
    cbv [bind api ask]. cbn [self trace].
    destruct (es_api E (trace w0) c (Flush (to_csv E l) true))
      as [e1|[]] eqn:Hflush; cbn [fst snd self trace].
    - eexists. split; [reflexivity|]. split; [discriminate|].
      intros e He. injection He as <-. left.
      rewrite steps_app, Hinv. reflexivity.
    - destruct (es_api E _ c (CloseIndex (to_csv E l) true))
        as [e2|[]] eqn:Hclose; cbn [fst snd self trace].
      + eexists. split; [rewrite <- app_assoc; reflexivity|].
        split; [discriminate|].
        intros e He. injection He as <-. right.
        rewrite steps_app, Hinv. reflexivity.
      + eexists. split; [rewrite <- app_assoc; reflexivity|].
        split; [|discriminate].
        intros _. rewrite steps_app, Hinv, flat_map_app. simpl.
        reflexivity. }
  destruct (for_each_invariant _ inv broke Hstep chunks [] w [] eq_refl)
    as (evs & Hrun & Hok & Hbad).
  exists evs. split; [exact Hrun|]. split; [exact Hok|exact Hbad].
Qed.

(** X3.  When the closed-index filter keeps a non-empty part of the
    collection, [Close.do_action] narrows the collection to that part
    and, chunk by chunk in order, flushes the chunk and then closes it.
    A close call is never made for a chunk whose flush raised, nothing
    is done for the chunks behind a call that raised, and what the call
    raised is the cause of the FailedExecution that leaves
    [do_action]. *)
Theorem close_flushes_then_closes (kept : list string) (w : world t) :
  (forall t', ilo_filter_closed E t' (indices (index_list (self w)))
              = inr kept) ->
  kept <> [] ->
  let c := client (self w) in
  let chunks := chunk_index_list E kept in
  let out := do_action E w in
  let new := since w (snd out) in
  indices (index_list (self (snd out))) = kept
  /\ ((fst out = inr tt
       /\ steps new = flat_map (flush_then_close E c) chunks)
      \/ exists e before l rest,
           fst out = inl (failed e)
           /\ chunks = before ++ l :: rest
           /\ (steps new
               = flat_map (flush_then_close E c) before
                 ++ [did_raise c (flush_chunk E l) e]
               \/ steps new
                  = flat_map (flush_then_close E c) before
                    ++ [did c (flush_chunk E l);
                        did_raise c (close_chunk E l) e])).
Proof.
  intros Hfilter Hkept c chunks out new. subst c chunks out new.
  unfold do_action.
  cbv [bind get_self empty_list_check ret log emit try_except
       report_failure raise run_filter put_self].
  cbn [self trace]. rewrite Hfilter.
  cbn [self trace set_indices with_indices index_list indices client].
  destruct kept as [|k0 kept']; [contradiction|].
  cbn [self trace client].
  match goal with
  | |- context [for_each ?chunks ?b ?w1] =>
      change (for_each chunks b w1)
        with (for_each chunks
                (fun l =>
                   api E (client (self w)) (Flush (to_csv E l) true) ;;
                   api E (client (self w)) (CloseIndex (to_csv E l) true))
                w1);
      destruct (close_loop_steps (client (self w)) chunks w1)
        as (evs & Hrun & Hok & Hbad);
      set (loop := for_each chunks _ w1) in *
  end.
  cbn [self trace] in Hrun. rewrite Hrun.
  destruct (fst loop) as [e|[]] eqn:Hres;
    cbn [fst snd self trace index_list indices].
  - split; [reflexivity|]. right.
    destruct (Hbad e eq_refl) as (before & l & rest & Hsplit & Hsteps).
    exists e, before, l, rest. split; [reflexivity|].
    split; [exact Hsplit|].
    erewrite since_app by (cbn [trace]; rewrite <- ?app_assoc; reflexivity).
    rewrite !steps_app.
    destruct Hsteps as [-> | ->]; [left|right]; simpl;
      rewrite ?app_nil_r; reflexivity.
  - split; [reflexivity|]. left. split; [reflexivity|].
    erewrite since_app by (cbn [trace]; rewrite <- ?app_assoc; reflexivity).
    rewrite !steps_app, (Hok eq_refl). simpl.
    rewrite ?app_nil_r. reflexivity.
Qed.

End WithEnv.
End CloseFacts.

(** ** ForceMerge *)
Module ForceMergeFacts.
Import ForceMerge Outcome Protocol.

Section WithEnv.
Variable E : Env.

(** The loop of [ForceMerge.do_action]: merge an index, then wait when a
    delay is set. *)
Lemma merge_loop_steps (s : t) (names : list string) (w : world t) :
  let body := fun index_name =>
    (log loggit Info
       ("forceMerging index {0} to {1} segments per shard.  "
        ++ "Please wait...")
       [AStr index_name; AVal (max_num_segments s)] ;;
     api E (client s) (Forcemerge index_name (max_num_segments s)) ;;
     if (0 <? delay s)%Z then
       log loggit Info "Pausing for {0} seconds before continuing..."
         [AInt (delay s)] ;;
       sleep (delay s)
     else ret tt)%py in
  exists evs,
    for_each names body w
    = (fst (for_each names body w), World (self w) (trace w ++ evs))
    /\ (fst (for_each names body w) = inr tt ->
        steps evs
        = flat_map
            (merge_then_pause (client s) (max_num_segments s) (delay s))
            names)
    /\ (forall e,
          fst (for_each names body w) = inl e ->
          exists before index_name rest,
            names = before ++ index_name :: rest
            /\ steps evs
               = flat_map
                   (merge_then_pause (client s) (max_num_segments s)
                      (delay s)) before
                 ++ [did_raise (client s)
                       (Forcemerge index_name (max_num_segments s)) e]).
Proof.
  intros body.
  pose (inv := fun (before : list string) (evs : list event) =>
                 steps evs
                 = flat_map
                     (merge_then_pause (client s) (max_num_segments s)
                        (delay s)) before).
  pose (broke := fun (before : list string) (index_name : string)
                     (e : exn) (evs : list event) =>
                   steps evs
                   = flat_map
                       (merge_then_pause (client s) (max_num_segments s)
                          (delay s)) before
                     ++ [did_raise (client s)
                           (Forcemerge index_name (max_num_segments s)) e]).
  assert (Hstep : forall before x (w0 : world t) evs0,
    inv before evs0 ->
    exists evs,
      body x w0 = (fst (body x w0), World (self w0) (trace w0 ++ evs))
      /\ (fst (body x w0) = inr tt -> inv (before ++ [x]) (evs0 ++ evs))
      /\ (forall e, fst (body x w0) = inl e ->
          broke before x e (evs0 ++ evs))).
  { intros before x w0 evs0 Hinv. unfold inv, broke, body in *.
    cbv [bind api ask log emit sleep ret]. cbn [self trace].
    destruct (es_api E _ (client s) (Forcemerge x (max_num_segments s)))
      as [e1|[]] eqn:Hmerge; cbn [fst snd self trace].
    - eexists. split; [rewrite <- app_assoc; reflexivity|].
      split; [discriminate|].
      intros e He. injection He as <-.
      rewrite steps_app, Hinv. reflexivity.
    - unfold merge_then_pause, pause in *.
      destruct (0 <? delay s)%Z eqn:Hd; cbn [fst snd self trace].
      + eexists. split; [rewrite <- !app_assoc; reflexivity|].
        split; [|discriminate].
        intros _. rewrite steps_app, Hinv, flat_map_app. simpl.
        reflexivity.
      + eexists. split; [rewrite <- !app_assoc; reflexivity|].
        split; [|discriminate].
        intros _. rewrite steps_app, Hinv, flat_map_app. simpl.
        reflexivity. }
  destruct (for_each_invariant body inv broke Hstep names [] w [] eq_refl)
    as (evs & Hrun & Hok & Hbad).
  exists evs. split; [exact Hrun|]. split; [exact Hok|exact Hbad].
Qed.

(** [do_action] past its guard and its filter. *)
Lemma forcemerge_steps (kept : list string) (w : world t) :
  indices (index_list (self w)) <> [] ->
  ilo_filter_forceMerged E (trace w) (max_num_segments (self w))
    (indices (index_list (self w))) = inr kept ->
  do_action E w
  = let s := self w in
    match
      for_each kept
        (fun index_name =>
           log loggit Info
             ("forceMerging index {0} to {1} segments per shard.  "
              ++ "Please wait...")
             [AStr index_name; AVal (max_num_segments s)] ;;
           api E (client s) (Forcemerge index_name (max_num_segments s)) ;;
           if (0 <? delay s)%Z then
             log loggit Info "Pausing for {0} seconds before continuing..."
               [AInt (delay s)] ;;
             sleep (delay s)
           else ret tt)
        (World (set_indices kept s)
           ((trace w
             ++ [EvFilter (FilterForceMerged (max_num_segments s))
                   (indices (index_list s)) (inr kept)])
            ++ [EvLog loggit Info "forceMerging selected indices" []]))
    with
    | (inl e, w2) =>
        (inl (failed e),
         World (self w2)
           (trace w2
            ++ [EvLog "curator.utils" Error "Exception encountered: {0}"
                  [AExn e]]))
    | (inr u, w2) => (inr u, w2)
    end.
Proof.
  intros Hne Hfilter. unfold do_action.
  cbv [bind get_self empty_list_check run_filter put_self].
  destruct (indices (index_list (self w))) as [|i0 rest0] eqn:Hidx;
    [contradiction|].
  cbv [ret]. cbn [self trace]. rewrite Hfilter.
  cbv [log emit try_except report_failure raise bind].
  cbn [self trace].
  reflexivity.
Qed.

(** X4.  On a non-empty collection of which the force-merge filter keeps
    [kept] (possibly nothing), [ForceMerge.do_action] narrows the
    collection to [kept] and merges its indices one by one, in order.
    With a positive delay it waits that many seconds after every merge
    that returned, the last one included; with a delay of zero or less
    it never waits.  A merge that raises is followed by no wait and no
    further merge, and is the cause of the FailedExecution raised. *)
Theorem forcemerge_merges_then_pauses (kept : list string) (w : world t) :
  indices (index_list (self w)) <> [] ->
  (forall t', ilo_filter_forceMerged E t' (max_num_segments (self w))
                (indices (index_list (self w))) = inr kept) ->
  let s := self w in
  let out := do_action E w in
  let new := since w (snd out) in
  let merge :=
    merge_then_pause (client s) (max_num_segments s) (delay s) in
  indices (index_list (self (snd out))) = kept
  /\ ((fst out = inr tt /\ steps new = flat_map merge kept)
      \/ exists e before index_name rest,
           fst out = inl (failed e)
           /\ kept = before ++ index_name :: rest
           /\ steps new
              = flat_map merge before
                ++ [did_raise (client s)
                      (Forcemerge index_name (max_num_segments s)) e]).
Proof.
  intros Hne Hfilter s out new merge. subst s out new merge.
  rewrite (forcemerge_steps kept w Hne (Hfilter _)). cbv zeta.
  match goal with
  | |- context [for_each kept ?b ?w1] =>
      destruct (merge_loop_steps (self w) kept w1)
        as (evs & Hrun & Hok & Hbad);
      set (loop := for_each kept b w1) in *
  end.
  cbn [self trace] in Hrun. rewrite Hrun. clearbody loop.
  destruct (fst loop) as [e|[]] eqn:Hres;
    cbn [fst snd self trace set_indices with_indices index_list indices].
  - split; [reflexivity|]. right.
    destruct (Hbad e eq_refl) as (before & x & rest & Hsplit & Hsteps).
    exists e, before, x, rest. split; [reflexivity|].
    split; [exact Hsplit|].
    erewrite since_app by (cbn [trace]; rewrite <- ?app_assoc; reflexivity).
    rewrite !steps_app, Hsteps. simpl. rewrite ?app_nil_r. reflexivity.
  - split; [reflexivity|]. left. split; [reflexivity|].
    erewrite since_app by (cbn [trace]; rewrite <- ?app_assoc; reflexivity).
    rewrite !steps_app, (Hok eq_refl). simpl. rewrite ?app_nil_r.
    reflexivity.
Qed.

End WithEnv.
End ForceMergeFacts.

(** ** DeleteIndices, the whole action *)
Module DeleteIndicesMore.
Import DeleteIndices DeleteRetry Outcome.

(** X5.  [DeleteIndices.__init__] accepts a timeout exactly when it is an
    integer: on an IndexList and the integer [z] it logs one debug line
    and stores the decimal of [z] followed by [s]; on anything else, a
    boolean or a string included, it raises TypeError and leaves the
    world as it was.  No call reaches the cluster in either case. *)
Theorem init_wants_an_integer_timeout {O} (c : collection)
    (master_timeout : pyval) (w : world O) :
  (forall ilo z,
     c = AnIndexList ilo -> master_timeout = PInt z ->
     let mt := (DecimalString.NilZero.string_of_int (Z.to_int z) ++ "s")%string in
     init c master_timeout w
     = (inr {| index_list := ilo; client := il_client ilo;
               master_timeout := mt |},
        World (self w)
          (trace w
           ++ [EvLog loggit Debug "master_timeout value: {0}" [AStr mt]])))
  /\ ((forall ilo, c <> AnIndexList ilo)
      \/ (forall z, master_timeout <> PInt z) ->
      exists e,
        init c master_timeout w = (inl e, w) /\ exn_cls e = TypeError).
Proof.
  split.
  - intros ilo z -> ->. reflexivity.
  - intros Hbad. unfold init, verify_index_list, bind, raise, ret.
    destruct c as [ilo|slo|v]; simpl; eauto.
    destruct master_timeout as [|b|z|str]; simpl; eauto.
    destruct Hbad as [H|H]; [now destruct (H ilo)|now destruct (H z)].
Qed.

Section WithEnv.
Variable E : Env.

(** What one chunk contributes to the whole action. *)
Lemma chunk_loop_adds (l : list string) (w : world t) :
  exists evs later,
    chunk_loop E l w
    = (fst (chunk_loop E l w), World (self w) (trace w ++ evs))
    /\ api_calls evs = run_deletes E (self w) (l, later)
    /\ run_ok (l, later)
    /\ (forall e, fst (chunk_loop E l w) = inl e ->
        exists q, In (EvCall (client (self w)) q (inl e)) evs).
Proof.
  destruct (DeleteIndicesFacts.retries_calls E (self w) 1 l w _
              (DeleteIndicesFacts.chunk_loop_refines E l w))
    as (evs & later & Hout & Hapi & Hlen & Hsub & Hexn).
  exists evs, later.
  split; [|split; [exact Hapi|split; [split; [exact Hlen|exact Hsub]
                                     |exact Hexn]]].
  rewrite <- Hout. now destruct (chunk_loop E l w).
Qed.

(** The loop over the chunks: one run of [__chunk_loop] per chunk, in
    the order of the chunks, up to the end or up to the run in which the
    cluster raised. *)
Lemma chunk_loops_run (chunks : list (list string)) :
  forall w : world t,
  exists evs runs,
    for_each chunks (chunk_loop E) w
    = (fst (for_each chunks (chunk_loop E) w),
       World (self w) (trace w ++ evs))
    /\ api_calls evs = flat_map (run_deletes E (self w)) runs
    /\ Forall run_ok runs
    /\ (fst (for_each chunks (chunk_loop E) w) = inr tt ->
        map fst runs = chunks)
    /\ (forall e, fst (for_each chunks (chunk_loop E) w) = inl e ->
        exists before l later rest q,
          runs = before ++ [(l, later)]
          /\ chunks = map fst before ++ l :: rest
          /\ In (EvCall (client (self w)) q (inl e)) evs).
Proof.
  induction chunks as [|l chunks IH]; intros w.
  - exists [], []. simpl. unfold ret. rewrite app_nil_r.
    destruct w. repeat split; auto. intros e He. discriminate.
  - destruct (chunk_loop_adds l w)
      as (evs & later & Hrun & Hapi & Hfine & Hexn).
    simpl for_each. unfold bind. rewrite Hrun.
    destruct (fst (chunk_loop E l w)) as [e|[]] eqn:Hres.
    + exists evs, [(l, later)]. cbn [fst snd flat_map].
      rewrite app_nil_r.
      split; [reflexivity|]. split; [exact Hapi|].
      split; [constructor; [exact Hfine|constructor]|].
      split; [discriminate|].
      intros e' He'. injection He' as <-.
      destruct (Hexn e eq_refl) as (q & Hq).
      exists [], l, later, chunks, q. repeat split; auto.
    + destruct (IH (World (self w) (trace w ++ evs)))
        as (evs' & runs & Hrun' & Hapi' & Hfine' & Hall' & Hbad').
      cbn [self trace] in Hrun', Hapi', Hbad'.
      exists (evs ++ evs'), ((l, later) :: runs).
      rewrite Hrun'. cbn [fst snd self trace flat_map].
      rewrite <- app_assoc.
      split; [reflexivity|].
      split.
      { rewrite DeleteIndicesFacts.api_calls_app, Hapi, Hapi'.
        reflexivity. }
      split; [constructor; assumption|].
      split.
      { intros Hr. cbn [map fst]. now rewrite (Hall' Hr). }
      intros e He.
      destruct (Hbad' e He)
        as (before & x & later' & rest & q & Hruns & Hsplit & Hin).
      exists ((l, later) :: before), x, later', rest, q.
      split; [now rewrite Hruns|].
      split; [cbn [map fst app]; now rewrite Hsplit|].
      apply in_or_app. now right.
Qed.

Lemma runs_are_deletes (s : t) (runs : list run) :
  Forall (fun a => is_delete a = true) (flat_map (run_deletes E s) runs).
Proof.
  apply Forall_forall. intros a Ha. apply in_flat_map in Ha.
  destruct Ha as (r & _ & Ha). unfold run_deletes in Ha.
  apply in_map_iff in Ha. destruct Ha as (x & <- & _). reflexivity.
Qed.

Lemma runs_count (s : t) (runs : list run) :
  Forall run_ok runs ->
  List.length runs <= List.length (flat_map (run_deletes E s) runs)
  /\ List.length (flat_map (run_deletes E s) runs)
     <= 3 * List.length runs.
Proof.
  induction 1 as [|r runs [Hlen _] _ IH].
  - simpl. lia.
  - cbn [flat_map]. rewrite length_app. unfold run_deletes at 1 3.
    rewrite length_map.
    change (List.length (fst r :: snd r)) with (S (List.length (snd r))).
    change (List.length (r :: runs)) with (S (List.length runs)).
    lia.
Qed.

(** X6.  On a non-empty collection [DeleteIndices.do_action] leaves the
    object as it is, and the calls it makes on the client are the
    delete calls of one run of the retry loop per chunk, in the order
    of the chunks: the first delete of a run is on the chunk itself, at
    most two more follow, each on a non-empty part of that chunk.  When
    it returns normally there is a run for every chunk; when it raises,
    the runs are those of the chunks up to the one at which the cluster
    raised, and no call is made for the chunks behind it.  So it makes
    between one and three delete calls for every chunk it gets through
    and no other call on the client.  It raises only when a call on the
    cluster raised, and then the uniform FailedExecution with that
    cause: indices that survive all three attempts never make it
    raise. *)
Theorem delete_indices_only_fails_with_the_cluster (w : world t) :
  indices (index_list (self w)) <> [] ->
  let s := self w in
  let chunks := chunk_index_list E (indices (index_list s)) in
  let out := do_action E w in
  let new := since w (snd out) in
  self (snd out) = s
  /\ Forall (fun a => is_delete a = true) (api_calls new)
  /\ List.length (api_calls new) <= 3 * List.length chunks
  /\ (fst out = inr tt ->
      List.length chunks <= List.length (api_calls new))
  /\ (forall e, fst out = inl e ->
      exists cause c q,
        e = failed cause /\ In (EvCall c q (inl cause)) new)
  /\ exists runs,
       api_calls new = flat_map (run_deletes E s) runs
       /\ Forall run_ok runs
       /\ (fst out = inr tt -> map fst runs = chunks)
       /\ (forall e, fst out = inl e ->
           exists before l later rest,
             runs = before ++ [(l, later)]
             /\ chunks = map fst before ++ l :: rest).
Proof.
  intros Hne s chunks out new. subst s chunks out new.
  unfold do_action.
  cbv [bind get_self empty_list_check ret log emit try_except
       report_failure raise].
  destruct (indices (index_list (self w))) as [|i0 rest0] eqn:Hidx;
    [contradiction|].
  cbn [self trace].
  match goal with
  | |- context [for_each ?chunks (chunk_loop E) ?w1] =>
      destruct (chunk_loops_run chunks w1)
        as (evs & runs & Hrun & Hapi & Hfine & Hall & Hbad);
      set (loop := for_each chunks (chunk_loop E) w1) in *
  end.
  cbn [self trace] in Hrun, Hapi, Hbad. rewrite Hrun. clearbody loop.
  destruct (runs_count (self w) runs Hfine) as (Hlo & Hhi).
  pose proof (runs_are_deletes (self w) runs) as Hdel.
  rewrite <- Hapi in Hlo, Hhi, Hdel.
  destruct (fst loop) as [e|[]] eqn:Hres; cbn [fst snd self trace].
  - erewrite since_app by (cbn [trace]; rewrite <- ?app_assoc; reflexivity).
    assert (Hsame : api_calls
                      ([EvLog loggit Info "Deleting selected indices" []]
                       ++ evs ++ [EvLog "curator.utils" Error
                                    "Exception encountered: {0}" [AExn e]])
                    = api_calls evs).
    { rewrite !DeleteIndicesFacts.api_calls_app. simpl.
      now rewrite app_nil_r. }
    rewrite Hsame.
    destruct (Hbad e eq_refl)
      as (before & l & later & rest & q & Hruns & Hsplit & Hin).
    split; [reflexivity|]. split; [exact Hdel|]. split.
    { rewrite Hsplit, length_app, length_map.
      rewrite Hruns, length_app in Hhi. simpl in Hhi |- *. lia. }
    split; [discriminate|]. split.
    { intros e' He'. injection He' as <-.
      exists e, (client (self w)), q. split; [reflexivity|].
      apply in_or_app. right. apply in_or_app. now left. }
    exists runs. split; [exact Hapi|]. split; [exact Hfine|].
    split; [discriminate|].
    intros e' _. exists before, l, later, rest. now split.
  - erewrite since_app by (cbn [trace]; rewrite <- ?app_assoc; reflexivity).
    change (api_calls ([?x] ++ ?l)) with (api_calls l).
    pose proof (Hall eq_refl) as Hmap.
    assert (Hsize : List.length runs
                    = List.length (chunk_index_list E (i0 :: rest0))).
    { rewrite <- Hmap. now rewrite length_map. }
    split; [reflexivity|]. split; [exact Hdel|].
    split; [now rewrite <- Hsize|].
    split; [intros _; now rewrite <- Hsize|].
    split; [intros e He; discriminate|].
    exists runs. split; [exact Hapi|]. split; [exact Hfine|].
    split; [intros _; exact Hmap|].
    intros e He. discriminate.
Qed.

(** X7.  Against a cluster that reports the same index set at every
    query, the re-query of [__chunk_loop] returns the identifiers of the
    working list that are in that set, in their order, and it asks the
    cluster once for every identifier of the working list. *)
Theorem still_present_filters (c : client_ref) (present l : list string) :
  (forall t', es_get_indices E t' c = inr present) ->
  forall w : world t,
    still_present E c l w
    = (inr (survivors present l),
       World (self w)
         (trace w
          ++ map (fun _ => EvCall c GetIndices (inr (VNames present))) l)).
Proof.
  intros Hstable. induction l as [|i l IH]; intros w.
  - simpl. unfold ret. rewrite app_nil_r. now destruct w.
  - simpl still_present. cbv [bind get_indices ask ret].
    rewrite Hstable. cbn [self trace]. rewrite IH. cbn [self trace].
    unfold survivors. simpl filter.
    rewrite <- app_assoc.
    destruct (existsb (String.eqb i) present); reflexivity.
Qed.

Lemma survivors_idempotent (present l : list string) :
  survivors present (survivors present l) = survivors present l.
Proof.
  unfold survivors. induction l as [|i l IH]; [reflexivity|].
  simpl. destruct (existsb (String.eqb i) present) eqn:Hi; simpl.
  - rewrite Hi. now rewrite IH.
  - exact IH.
Qed.

Lemma attempt_stable (s : t) (present l : list string) (w : world t) :
  (forall t', es_get_indices E t' (client s) = inr present) ->
  (forall t' a, es_api E t' (client s) a = inr tt) ->
  exists evs,
    attempt E s l w
    = (inr (survivors present l), World (self w) (trace w ++ evs))
    /\ api_calls evs = [delete_of E s l].
Proof.
  intros Hstable Hdel.
  destruct (DeleteIndicesFacts.attempt_run E s l w)
    as (r & evs & Hr & Hapi & _).
  exists evs. split; [|exact Hapi].
  rewrite Hr. f_equal.
  unfold attempt in Hr. unfold bind at 1 in Hr.
  rewrite DeleteIndicesFacts.log_loop in Hr.
  unfold bind at 1 in Hr. cbv [api ask] in Hr. rewrite Hdel in Hr.
  cbn [self trace] in Hr.
  rewrite (still_present_filters (client s) present l Hstable) in Hr.
  now injection Hr as <- _.
Qed.

(** X8.  Against a cluster that reports the same index set at every
    query and accepts every delete call, [__chunk_loop] returns
    normally: it deletes the chunk once; when none of the chunk is in
    that set this is all, and otherwise it repeats the delete exactly
    twice on the identifiers that are in the set and then logs them as
    impossible to delete. *)
Theorem chunk_loop_on_a_stable_cluster (present chunk : list string)
    (w : world t) :
  (forall t', es_get_indices E t' (client (self w)) = inr present) ->
  (forall t' a, es_api E t' (client (self w)) a = inr tt) ->
  let s := self w in
  let stuck := survivors present chunk in
  let out := chunk_loop E chunk w in
  let new := since w (snd out) in
  fst out = inr tt
  /\ (stuck = [] -> api_calls new = [delete_of E s chunk])
  /\ (stuck <> [] ->
      api_calls new
      = [delete_of E s chunk; delete_of E s stuck; delete_of E s stuck]
      /\ In (gave_up stuck) new).
Proof.
  intros Hstable Hdel s stuck out new. subst s stuck out new.
  unfold chunk_loop. change (py_range 1 4) with [1; 2; 3].
  rewrite DeleteIndicesFacts.loop_pass.
  destruct (attempt_stable (self w) present chunk w Hstable Hdel)
    as (evs1 & H1 & Hapi1).
  rewrite H1.
  destruct (survivors present chunk) as [|i1 r1] eqn:Hstuck.
  - split; [reflexivity|]. split; [|intros Habs; now destruct Habs].
    intros _. cbn [snd].
    erewrite since_app
      by (unfold after_logs; cbn [self trace]; rewrite <- ?app_assoc;
          reflexivity).
    rewrite DeleteIndicesFacts.api_calls_app, Hapi1. reflexivity.
  - assert (Hidem : survivors present (i1 :: r1) = i1 :: r1).
    { rewrite <- Hstuck. apply survivors_idempotent. }
    rewrite DeleteIndicesFacts.loop_pass.
    repeat (progress (rewrite ?DeleteIndicesFacts.self_after_logs;
                      cbn [self])).
    match goal with
    | |- context [attempt E (self w) (i1 :: r1) ?w1] =>
        destruct (attempt_stable (self w) present (i1 :: r1) w1
                    Hstable Hdel) as (evs2 & H2 & Hapi2)
    end.
    rewrite H2, Hidem.
    rewrite DeleteIndicesFacts.loop_pass.
    repeat (progress (rewrite ?DeleteIndicesFacts.self_after_logs;
                      cbn [self])).
    match goal with
    | |- context [attempt E (self w) (i1 :: r1) (after_logs ?w2 ?l2)] =>
        destruct (attempt_stable (self w) present (i1 :: r1)
                    (after_logs w2 l2) Hstable Hdel)
          as (evs3 & H3 & Hapi3)
    end.
    rewrite H3, Hidem.
    rewrite DeleteIndicesFacts.gave_up_run.
    split; [reflexivity|]. split; [discriminate|].
    intros _. cbn [snd].
    erewrite since_app
      by (unfold after_logs; cbn [self trace]; rewrite <- ?app_assoc;
          reflexivity).
    split.
    + rewrite !DeleteIndicesFacts.api_calls_app, Hapi1, Hapi2, Hapi3.
      rewrite !DeleteIndicesFacts.api_calls_verify_logs. reflexivity.
    + repeat (apply in_or_app; right). now left.
Qed.

End WithEnv.
End DeleteIndicesMore.

(** ** Snapshot, beyond the mutual exclusion *)
Module SnapshotMore.
Import Snapshot Outcome.

Section WithEnv.
Variable E : Env.

(** X9.  Constructing a Snapshot on an IndexList asks the cluster exactly
    one thing, whether the repository exists, and it asks before it
    looks at the name: a missing repository is reported as ActionError
    also when the name is missing too.  The constructor returns an
    object only when the repository exists and a name was given; that
    object has no state yet, carries the parsed name and the body built
    from the identifiers of the collection. *)
Theorem init_asks_for_the_repository_first {O} (ilo : IndexList)
    (repository name : pyval)
    (ignore_unavailable include_global_state partial wait_for_completion
       skip_repo_fs_check : bool) (w : world O) :
  let out :=
    init E (AnIndexList ilo) repository name ignore_unavailable
      include_global_state partial wait_for_completion skip_repo_fs_check w
  in
  let answer := es_repository_exists E (trace w) (il_client ilo) repository in
  calls (since w (snd out)) = [RepositoryExists repository]
  /\ self (snd out) = self w
  /\ (answer = inr false -> exists e,
        fst out = inl e /\ exn_cls e = ActionError)
  /\ (forall e, answer = inl e -> fst out = inl e)
  /\ (answer = inr true -> truthy name = false -> exists e,
        fst out = inl e /\ exn_cls e = MissingArgument)
  /\ (forall obj, fst out = inr obj ->
      answer = inr true /\ truthy name = true
      /\ state obj = None
      /\ Snapshot.name obj = parse_snapshot_name E name
      /\ Snapshot.repository obj = repository
      /\ client obj = il_client ilo
      /\ body obj
         = create_snapshot_body E (indices ilo) ignore_unavailable
             include_global_state partial).
Proof.
  cbv [init verify_index_list bind ret repository_exists ask raise].
  cbn [self trace].
  destruct (es_repository_exists E (trace w) (il_client ilo) repository)
    as [e|[|]] eqn:Hanswer; cbn [negb]; try destruct (truthy name) eqn:Hname;
    cbn [negb fst snd self trace].
  all: erewrite since_app by (cbn [trace]; reflexivity).
  all: repeat split; try reflexivity; try discriminate; eauto.
  all: try (intros obj Hobj; injection Hobj as <-; repeat split; reflexivity).
  all: try (intros e' He'; injection He' as <-; reflexivity).
  all: try (intros e' He'; now injection He' as <-).
  all: match goal with
       | H : inr _ = inr _ |- _ => injection H as <-; reflexivity
       end.
Qed.

(** X10.  [get_state] asks the cluster once for the snapshot.  When the
    answer lists at least one snapshot, the state of the first is stored
    in the object and returned.  When the answer lists none, or the
    query itself raised an IndexError, it raises CuratorException;
    every other exception of the query leaves [get_state] as it is.  In
    the failing cases the stored state is untouched. *)
Theorem get_state_reads_the_first_snapshot (w : world t) :
  let s := self w in
  let out := get_state E w in
  let answer :=
    es_snapshot_get E (trace w) (client s) (repository s) (name s) in
  calls (since w (snd out)) = [SnapshotGet (repository s) (name s)]
  /\ (forall st others, answer = inr (st :: others) ->
      fst out = inr st /\ self (snd out) = set_state st s)
  /\ (answer = inr [] ->
      self (snd out) = s
      /\ exists e, fst out = inl e /\ exn_cls e = CuratorException)
  /\ (forall e, answer = inl e ->
      self (snd out) = s
      /\ if is_IndexError e
         then exists e', fst out = inl e' /\ exn_cls e' = CuratorException
         else fst out = inl e).
Proof.
  cbv [get_state bind get_self snapshot_get ask raise ret put_self].
  cbn [self trace].
  destruct (es_snapshot_get E (trace w) (client (self w))
              (repository (self w)) (name (self w)))
    as [e|[|st others]] eqn:Hanswer; cbn [fst snd self trace];
    try destruct (is_IndexError e) eqn:Hidx; cbn [fst snd self trace].
  all: erewrite since_app by (cbn [trace]; reflexivity).
  all: repeat match goal with
              | |- _ /\ _ => split
              | |- forall _, _ => intro
              end.
  all: try discriminate; try reflexivity.
  all: repeat match goal with
              | H : inl _ = inl _ |- _ => injection H as <-
              | H : inr (_ :: _) = inr (_ :: _) |- _ => injection H as <- <-
              end.
  all: try rewrite Hidx; try reflexivity.
  all: try (eexists; split; reflexivity).
Qed.

Ltac run_snapshot :=
  cbv [do_action bind get_self test_repo_fs snapshot_running
       try_except api ask report_state get_state report_failure log
       emit raise ret snapshot_get put_self idle failed did did_raise
       done_ok].

(** X11.  With [skip_repo_fs_check] set, [Snapshot.do_action] never
    checks the repository filesystem.  Without it that check is the
    first thing asked of the cluster, and when it raises, its exception
    leaves [do_action] as it is, not wrapped, with nothing else asked. *)
Theorem repo_fs_check_comes_first (w : world t) :
  let s := self w in
  let out := do_action E w in
  let new := since w (snd out) in
  (skip_repo_fs_check s = true ->
   filter is_test_repo_fs (calls new) = [])
  /\ (skip_repo_fs_check s = false ->
      hd_error (calls new) = Some (TestRepoFs (repository s))
      /\ forall e,
           es_test_repo_fs E (trace w) (client s) (repository s) = inl e ->
           fst out = inl e
           /\ calls new = [TestRepoFs (repository s)]
           /\ self (snd out) = s).
Proof.
  run_snapshot. cbn [self trace].
  split; intros Hskip; rewrite Hskip; cbn [negb].
  - repeat (case_answer; cbn [fst snd self trace negb] in * ).
    all: erewrite since_app
           by (cbn [trace]; rewrite <- ?app_assoc; reflexivity).
    all: reflexivity.
  - destruct (es_test_repo_fs E (trace w) (client (self w))
                (repository (self w))) as [e0|[]] eqn:Hfs;
      cbn [fst snd self trace].
    + erewrite since_app by (cbn [trace]; reflexivity).
      split; [reflexivity|].
      intros e He. injection He as <-. repeat split; reflexivity.
    + repeat (case_answer; cbn [fst snd self trace negb] in * ).
      all: erewrite since_app
             by (cbn [trace]; rewrite <- ?app_assoc; reflexivity).
      all: split; [reflexivity|]; intros ? He; discriminate.
Qed.

(** X12.  When the running-snapshot check of [do_action] answers that no
    snapshot is running, the only call made directly on the client is
    one snapshot-create call, with the repository, name, body and
    [wait_for_completion] of the object.  From then on [do_action]
    either returns normally or raises the uniform FailedExecution.  If
    the create call raises, the state is not queried.  Without
    [wait_for_completion] the state is not queried either.  The state
    is queried at most once, and whatever state the cluster reports,
    SUCCESS or not, is stored in the object and [do_action] returns
    normally. *)
Theorem snapshot_is_created_once (w : world t) :
  let s := self w in
  let c := client s in
  let out := do_action E w in
  let new := since w (snd out) in
  let create :=
    SnapshotCreate (repository s) (name s) (body s)
      (wait_for_completion s) in
  In (EvCall c SnapshotRunning idle) new ->
  api_calls new = [create]
  /\ (fst out = inr tt \/ exists e, fst out = inl (failed e))
  /\ List.length (filter is_snapshot_get (calls new)) <= 1
  /\ (wait_for_completion s = false ->
      filter is_snapshot_get (calls new) = [])
  /\ (forall e, In (EvCall c (Api create) (inl e)) new ->
      fst out = inl (failed e)
      /\ filter is_snapshot_get (calls new) = [])
  /\ (forall st others,
        In (EvCall c (SnapshotGet (repository s) (name s))
              (inr (VNames (st :: others)))) new ->
        fst out = inr tt /\ state (self (snd out)) = Some st).
Proof.
  run_snapshot. cbn [self trace]. intros Hin.
  repeat (case_answer; cbn [fst snd self trace negb] in * ).
  all: erewrite since_app in Hin
         by (cbn [trace]; rewrite <- ?app_assoc; reflexivity).
  all: try (simpl in Hin; intuition congruence).
  all: erewrite since_app
         by (cbn [trace]; rewrite <- ?app_assoc; reflexivity).
  all: clear Hin.
  all: repeat match goal with
              | |- _ /\ _ => split
              | |- forall _, _ => intro
              end.
  all: try reflexivity; try discriminate; eauto.
  all: try (simpl; lia).
  all: try (match goal with
            | H : In _ _ |- _ => simpl in H; intuition congruence
            end).
  all: match goal with H : In _ _ |- _ => simpl in H end.
  all: repeat match goal with
              | H : _ \/ _ |- _ => destruct H
              | H : False |- _ => contradiction
              | H : _ = EvCall _ _ _ |- _ =>
                  first [discriminate H | inversion H; clear H; subst]
              end.
  all: reflexivity.
Qed.

End WithEnv.
End SnapshotMore.

(** ** Alias, the accumulation *)
Module AliasMore.
Import Alias Outcome.

Lemma add_stays_local (c : collection) (w : world t) :
  calls (since w (snd (add c w))) = []
  /\ alias (self (snd (add c w))) = alias (self w)
  /\ (exists more,
        actions (self (snd (add c w))) = actions (self w) ++ more)
  /\ (forall k, client (self w) = Some k ->
      client (self (snd (add c w))) = Some k)
  /\ (forall ilo, c = AnIndexList ilo ->
      client (self (snd (add c w)))
      = Some (bound_client ilo (self w))).
Proof.
  destruct c as [ilo|slo|v].
  - destruct (indices ilo) as [|i l] eqn:Hidx.
    + cbv [add verify_index_list bind ret get_self].
      rewrite Hidx. destruct w as [[al acts [k|]] tr]; simpl.
      all: rewrite since_refl || (erewrite since_app
             by (simpl; rewrite app_nil_r; reflexivity)).
      all: repeat split; try reflexivity; try (exists []; now rewrite app_nil_r).
      all: try (intros k' Hk; exact Hk); try discriminate.
      all: try (intros ilo' Heq; injection Heq as <-; reflexivity).
    + rewrite (AliasFacts.add_run ilo w) by (rewrite Hidx; discriminate).
      cbn [snd self].
      erewrite since_app by (cbn [trace]; reflexivity).
      split; [now apply AliasFacts.calls_of_logs|].
      destruct w as [[al acts [k|]] tr]; simpl.
      all: repeat split; try reflexivity; eauto; try discriminate.
      all: try (intros ilo' Heq; injection Heq as <-; reflexivity).
  - cbv [add verify_index_list bind raise]. cbn [snd].
    rewrite since_refl.
    repeat split; try reflexivity; try (exists []; now rewrite app_nil_r).
    + intros k Hk. exact Hk.
    + intros ilo Heq. discriminate.
  - cbv [add verify_index_list bind raise]. cbn [snd].
    rewrite since_refl.
    repeat split; try reflexivity; try (exists []; now rewrite app_nil_r).
    + intros k Hk. exact Hk.
    + intros ilo Heq. discriminate.
Qed.

Lemma remove_stays_local (c : collection) (w : world t) :
  calls (since w (snd (remove c w))) = []
  /\ alias (self (snd (remove c w))) = alias (self w)
  /\ (exists more,
        actions (self (snd (remove c w))) = actions (self w) ++ more)
  /\ (forall k, client (self w) = Some k ->
      client (self (snd (remove c w))) = Some k)
  /\ (forall ilo, c = AnIndexList ilo ->
      client (self (snd (remove c w)))
      = Some (bound_client ilo (self w))).
Proof.
  destruct c as [ilo|slo|v].
  - destruct (indices ilo) as [|i l] eqn:Hidx.
    + cbv [remove verify_index_list bind ret get_self].
      rewrite Hidx. destruct w as [[al acts [k|]] tr]; simpl.
      all: rewrite since_refl || (erewrite since_app
             by (simpl; rewrite app_nil_r; reflexivity)).
      all: repeat split; try reflexivity; try (exists []; now rewrite app_nil_r).
      all: try (intros k' Hk; exact Hk); try discriminate.
      all: try (intros ilo' Heq; injection Heq as <-; reflexivity).
    + rewrite (AliasFacts.remove_run ilo w) by (rewrite Hidx; discriminate).
      cbn [snd self].
      erewrite since_app by (cbn [trace]; reflexivity).
      split; [now apply AliasFacts.calls_of_logs|].
      destruct w as [[al acts [k|]] tr]; simpl.
      all: repeat split; try reflexivity; eauto; try discriminate.
      all: try (intros ilo' Heq; injection Heq as <-; reflexivity).
  - cbv [remove verify_index_list bind raise]. cbn [snd].
    rewrite since_refl.
    repeat split; try reflexivity; try (exists []; now rewrite app_nil_r).
    + intros k Hk. exact Hk.
    + intros ilo Heq. discriminate.
  - cbv [remove verify_index_list bind raise]. cbn [snd].
    rewrite since_refl.
    repeat split; try reflexivity; try (exists []; now rewrite app_nil_r).
    + intros k Hk. exact Hk.
    + intros ilo Heq. discriminate.
Qed.

(** X13.  Whatever they are given, [add] and [remove] never talk to the
    cluster, never change the alias name, never drop or reorder an
    operation that was accumulated before (they only append), and never
    replace a client that is already bound. *)
Theorem add_and_remove_stay_local (c : collection) (w : world t) :
  (calls (since w (snd (add c w))) = []
   /\ alias (self (snd (add c w))) = alias (self w)
   /\ (exists more,
         actions (self (snd (add c w))) = actions (self w) ++ more)
   /\ (forall k, client (self w) = Some k ->
       client (self (snd (add c w))) = Some k))
  /\ (calls (since w (snd (remove c w))) = []
      /\ alias (self (snd (remove c w))) = alias (self w)
      /\ (exists more,
            actions (self (snd (remove c w))) = actions (self w) ++ more)
      /\ (forall k, client (self w) = Some k ->
          client (self (snd (remove c w))) = Some k)).
Proof.
  destruct (add_stays_local c w) as (A1 & A2 & A3 & A4 & _).
  destruct (remove_stays_local c w) as (R1 & R2 & R3 & R4 & _).
  repeat split; assumption.
Qed.

(** X14.  After [add] or [remove] was given an IndexList, the alias is
    bound to a client: the one it had, else the one of that IndexList.
    The binding comes before the empty-collection guard: an IndexList
    that is refused as empty, with EmptyCollectionError and nothing
    accumulated, has still bound its client to the alias. *)
Theorem first_collection_binds_the_client (ilo : IndexList) (w : world t) :
  client (self (snd (add (AnIndexList ilo) w)))
  = Some (bound_client ilo (self w))
  /\ client (self (snd (remove (AnIndexList ilo) w)))
     = Some (bound_client ilo (self w))
  /\ (indices ilo = [] ->
      fst (add (AnIndexList ilo) w) = inl empty_collection
      /\ fst (remove (AnIndexList ilo) w) = inl empty_collection
      /\ actions (self (snd (add (AnIndexList ilo) w))) = actions (self w)
      /\ actions (self (snd (remove (AnIndexList ilo) w)))
         = actions (self w)).
Proof.
  destruct (add_stays_local (AnIndexList ilo) w) as (_ & _ & _ & _ & A5).
  destruct (remove_stays_local (AnIndexList ilo) w)
    as (_ & _ & _ & _ & R5).
  split; [now apply A5|]. split; [now apply R5|].
  intros Hempty.
  cbv [add remove verify_index_list bind ret get_self]. rewrite Hempty.
  destruct (client (self w)); repeat split; reflexivity.
Qed.

End AliasMore.

(** ** Replicas, any count *)
Module ReplicasMore.
Import Replicas Outcome Protocol.

Section WithEnv.
Variable E : Env.

(** X15.  On a non-empty collection of which the closed-index filter
    keeps [kept], [Replicas.do_action] narrows the collection to [kept]
    and puts [number_of_replicas=COUNT] on the chunks of [kept] only,
    one call per chunk in order; it stops at the first call that raises
    and raises FailedExecution with that cause. *)
Theorem replicas_cover_the_open_indices (kept : list string)
    (w : world t) :
  indices (index_list (self w)) <> [] ->
  (forall t', ilo_filter_closed E t' (indices (index_list (self w)))
              = inr kept) ->
  let s := self w in
  let setting := ("number_of_replicas=" ++ py_str (count s))%string in
  let chunks := chunk_index_list E kept in
  let out := do_action E w in
  let new := since w (snd out) in
  indices (index_list (self (snd out))) = kept
  /\ ((fst out = inr tt
       /\ steps new = map (put_chunk E (client s) setting) chunks)
      \/ exists e before l rest,
           fst out = inl (failed e)
           /\ chunks = before ++ l :: rest
           /\ steps new
              = map (put_chunk E (client s) setting) before
                ++ [did_raise (client s)
                      (PutSettings (to_csv E l) setting) e]).
Proof.
  intros Hne Hfilter s setting chunks out new.
  subst s setting chunks out new.
  unfold do_action.
  cbv [bind get_self empty_list_check ret log emit try_except
       report_failure raise run_filter put_self].
  destruct (indices (index_list (self w))) as [|i0 rest0] eqn:Hidx;
    [contradiction|].
  cbn [self trace]. rewrite Hfilter.
  cbn [self trace set_indices with_indices index_list indices client
       count].
  api_loop E (client (self w))
    (fun l => PutSettings (to_csv E l)
                ("number_of_replicas=" ++ py_str (count (self w)))).
  cbn [self trace] in Hrun. rewrite Hrun. clearbody loop.
  destruct (fst loop) as [e|[]] eqn:Hres;
    cbn [fst snd self trace set_indices with_indices index_list indices].
  - split; [reflexivity|]. right.
    destruct (Hbad e eq_refl) as (before & l & rest & Hsplit & Hsteps).
    exists e, before, l, rest. split; [reflexivity|].
    split; [exact Hsplit|].
    erewrite since_app by (cbn [trace]; rewrite <- ?app_assoc; reflexivity).
    rewrite !steps_app, Hsteps. simpl. rewrite ?app_nil_r. reflexivity.
  - split; [reflexivity|]. left. split; [reflexivity|].
    erewrite since_app by (cbn [trace]; rewrite <- ?app_assoc; reflexivity).
    rewrite !steps_app, (Hok eq_refl). simpl. rewrite ?app_nil_r.
    reflexivity.
Qed.

End WithEnv.
End ReplicasMore.

(** ** The further statements at work on the scenarios *)
Module MoreWitnesses.
Import Outcome Protocol DeleteRetry.

Lemma open_chunk_by_chunk_witness :
  steps
    (since Scenario.open_five
       (snd (Open.do_action Scenario.quiet Scenario.open_five)))
  = map (open_chunk Scenario.quiet 1)
      (chunk_index_list Scenario.quiet Scenario.five).
Proof.
  assert (H : indices (Open.index_list (self Scenario.open_five)) <> [])
    by discriminate.
  destruct (OpenFacts.open_chunk_by_chunk Scenario.quiet
              Scenario.open_five H)
    as (_ & [(_ & Hsteps)|(e & before & l & rest & Hfail & _)]).
  - exact Hsteps.
  - vm_compute in Hfail. discriminate.
Defined.

Lemma allocation_puts_the_routing_setting_witness :
  Allocation.init (AnIndexList Scenario.ilo_five) (PStr "rack")
    (PStr "r1") (PStr "require")
    (World
       {| Allocation.index_list := Scenario.ilo_five;
          Allocation.client := 1;
          Allocation.body := "index.routing.allocation.require.rack=r1" |}
       [])
  = (inr {| Allocation.index_list := Scenario.ilo_five;
            Allocation.client := 1;
            Allocation.body :=
              "index.routing.allocation.require.rack=r1" |},
     World
       {| Allocation.index_list := Scenario.ilo_five;
          Allocation.client := 1;
          Allocation.body := "index.routing.allocation.require.rack=r1" |}
       []).
Proof.
  assert (Hkept : Scenario.five <> []) by discriminate.
  destruct (AllocationFacts.allocation_puts_the_routing_setting
              Scenario.quiet Scenario.ilo_five (PStr "rack") (PStr "r1")
              (PStr "require") Scenario.five [] eq_refl eq_refl eq_refl
              (fun _ => eq_refl) Hkept) as (Hinit & _).
  exact Hinit.
Defined.

Lemma close_flushes_then_closes_witness :
  indices
    (Close.index_list
       (self (snd (Close.do_action Scenario.quiet Scenario.close_five))))
  = Scenario.five.
Proof.
  assert (Hkept : Scenario.five <> []) by discriminate.
  destruct (CloseFacts.close_flushes_then_closes Scenario.quiet
              Scenario.five Scenario.close_five (fun _ => eq_refl) Hkept)
    as (Hidx & _).
  exact Hidx.
Defined.

Lemma forcemerge_merges_then_pauses_witness :
  steps
    (since Scenario.merge_five
       (snd (ForceMerge.do_action Scenario.quiet Scenario.merge_five)))
  = flat_map (merge_then_pause 1 (PInt 1) 2) Scenario.five.
Proof.
  assert (H : indices (ForceMerge.index_list (self Scenario.merge_five))
              <> []) by discriminate.
  destruct (ForceMergeFacts.forcemerge_merges_then_pauses Scenario.quiet
              Scenario.five Scenario.merge_five H (fun _ => eq_refl))
    as (_ & [(_ & Hsteps)|(e & before & l & rest & Hfail & _)]).
  - exact Hsteps.
  - vm_compute in Hfail. discriminate.
Defined.

Lemma init_wants_an_integer_timeout_witness :
  (exists obj w,
     DeleteIndices.init (AnIndexList Scenario.ilo_five) (PInt 30)
       (World tt []) = (inr obj, w)
     /\ DeleteIndices.master_timeout obj = "30s")
  /\ (exists e,
        DeleteIndices.init (AnIndexList Scenario.ilo_five) (PBool true)
          (World tt []) = (inl e, World tt [])
        /\ exn_cls e = TypeError).
Proof.
  split.
  - destruct (DeleteIndicesMore.init_wants_an_integer_timeout
                (AnIndexList Scenario.ilo_five) (PInt 30) (World tt []))
      as (Hok & _).
    do 2 eexists. split; [exact (Hok _ _ eq_refl eq_refl)|reflexivity].
  - destruct (DeleteIndicesMore.init_wants_an_integer_timeout
                (AnIndexList Scenario.ilo_five) (PBool true) (World tt []))
      as (_ & Hbad).
    apply Hbad. right. intros z. discriminate.
Defined.

Lemma delete_indices_only_fails_with_the_cluster_witness :
  exists runs,
    api_calls
      (since Scenario.delete_five
         (snd (DeleteIndices.do_action Scenario.stuck_delete
                 Scenario.delete_five)))
    = flat_map
        (DeleteRetry.run_deletes Scenario.stuck_delete
           (self Scenario.delete_five)) runs
    /\ Forall DeleteRetry.run_ok runs
    /\ map fst runs = [Scenario.five].
Proof.
  assert (H : indices (DeleteIndices.index_list (self Scenario.delete_five))
              <> []) by discriminate.
  destruct (DeleteIndicesMore.delete_indices_only_fails_with_the_cluster
              Scenario.stuck_delete Scenario.delete_five H)
    as (_ & _ & _ & _ & _ & runs & Hcalls & Hfine & Hall & _).
  exists runs. split; [exact Hcalls|]. split; [exact Hfine|].
  apply Hall. vm_compute. reflexivity.
Defined.

Lemma still_present_filters_witness :
  fst (DeleteIndices.still_present Scenario.stuck_delete 1 Scenario.five
         Scenario.delete_five)
  = inr ["logs-4"; "logs-5"].
Proof.
  rewrite (DeleteIndicesMore.still_present_filters Scenario.stuck_delete 1
             ["logs-4"; "logs-5"] Scenario.five (fun _ => eq_refl)
             Scenario.delete_five).
  reflexivity.
Defined.

Lemma chunk_loop_on_a_stable_cluster_witness :
  fst (DeleteIndices.chunk_loop Scenario.stuck_delete Scenario.five
         Scenario.delete_five) = inr tt
  /\ In (gave_up ["logs-4"; "logs-5"])
       (since Scenario.delete_five
          (snd (DeleteIndices.chunk_loop Scenario.stuck_delete Scenario.five
                  Scenario.delete_five))).
Proof.
  destruct (DeleteIndicesMore.chunk_loop_on_a_stable_cluster
              Scenario.stuck_delete ["logs-4"; "logs-5"] Scenario.five
              Scenario.delete_five (fun _ => eq_refl) (fun _ _ => eq_refl))
    as (Hok & _ & Hstuck).
  split; [exact Hok|].
  apply Hstuck. discriminate.
Defined.

Lemma init_asks_for_the_repository_first_witness :
  calls
    (since (World tt [])
       (snd (Snapshot.init Scenario.quiet (AnIndexList Scenario.ilo_five)
               (PStr "backups") PNone false true false true false
               (World tt []))))
  = [RepositoryExists (PStr "backups")]
  /\ exists e,
       fst (Snapshot.init Scenario.quiet (AnIndexList Scenario.ilo_five)
              (PStr "backups") PNone false true false true false
              (World tt [])) = inl e
       /\ exn_cls e = MissingArgument.
Proof.
  destruct (SnapshotMore.init_asks_for_the_repository_first Scenario.quiet
              Scenario.ilo_five (PStr "backups") PNone false true false
              true false (World tt []))
    as (Hcalls & _ & _ & _ & Hname & _).
  split; [exact Hcalls|]. apply Hname; reflexivity.
Defined.

Lemma get_state_reads_the_first_snapshot_witness :
  fst (Snapshot.get_state Scenario.quiet Scenario.nightly) = inr "SUCCESS".
Proof.
  destruct (SnapshotMore.get_state_reads_the_first_snapshot Scenario.quiet
              Scenario.nightly) as (_ & Hfirst & _).
  destruct (Hfirst "SUCCESS" [] eq_refl) as (Hstate & _).
  exact Hstate.
Defined.

Lemma repo_fs_check_comes_first_witness :
  hd_error
    (calls
       (since Scenario.nightly
          (snd (Snapshot.do_action Scenario.quiet Scenario.nightly))))
  = Some (TestRepoFs (PStr "backups")).
Proof.
  destruct (SnapshotMore.repo_fs_check_comes_first Scenario.quiet
              Scenario.nightly) as (_ & Hfirst).
  destruct (Hfirst eq_refl) as (Hhd & _).
  exact Hhd.
Defined.

Lemma snapshot_is_created_once_witness :
  api_calls
    (since Scenario.nightly
       (snd (Snapshot.do_action Scenario.quiet Scenario.nightly)))
  = [SnapshotCreate (PStr "backups") "nightly" "logs-1" true].
Proof.
  destruct (SnapshotMore.snapshot_is_created_once Scenario.quiet
              Scenario.nightly) as (Hcreate & _).
  - right. left. reflexivity.
  - exact Hcreate.
Defined.

Lemma add_and_remove_stay_local_witness :
  calls
    (since Scenario.fresh_alias
       (snd (Alias.add (AnIndexList Scenario.ilo_five)
               Scenario.fresh_alias))) = []
  /\ Alias.client
       (self (snd (Alias.remove (AnIndexList Scenario.ilo_two)
                     Scenario.fresh_alias))) = Some 1.
Proof.
  destruct (AliasMore.add_and_remove_stay_local
              (AnIndexList Scenario.ilo_five) Scenario.fresh_alias)
    as ((Hcalls & _) & _).
  destruct (AliasMore.add_and_remove_stay_local
              (AnIndexList Scenario.ilo_two) Scenario.fresh_alias)
    as (_ & (_ & _ & _ & Hkeep)).
  split; [exact Hcalls|]. apply Hkeep. reflexivity.
Defined.

Lemma first_collection_binds_the_client_witness :
  fst (Alias.add (AnIndexList Scenario.ilo_empty) Scenario.unbound_alias)
  = inl empty_collection
  /\ Alias.client
       (self (snd (Alias.add (AnIndexList Scenario.ilo_empty)
                     Scenario.unbound_alias))) = Some 1.
Proof.
  destruct (AliasMore.first_collection_binds_the_client Scenario.ilo_empty
              Scenario.unbound_alias) as (Hbound & _ & Hempty).
  destruct (Hempty eq_refl) as (Hraise & _).
  split; [exact Hraise|exact Hbound].
Defined.

Lemma replicas_cover_the_open_indices_witness :
  steps
    (since Scenario.replicas_five
       (snd (Replicas.do_action Scenario.quiet Scenario.replicas_five)))
  = map (put_chunk Scenario.quiet 1 "number_of_replicas=2")
      (chunk_index_list Scenario.quiet Scenario.five).
Proof.
  assert (H : indices (Replicas.index_list (self Scenario.replicas_five))
              <> []) by discriminate.
  destruct (ReplicasMore.replicas_cover_the_open_indices Scenario.quiet
              Scenario.five Scenario.replicas_five H (fun _ => eq_refl))
    as (_ & [(_ & Hsteps)|(e & before & l & rest & Hfail & _)]).
  - exact Hsteps.
  - vm_compute in Hfail. discriminate.
Defined.

End MoreWitnesses.
